(** * A shallow embedding of [browser_agent.py]

    The module under study is a ReAct-style browser agent: a response
    parser ([parse_llm_response]), an action executor ([execute_action])
    and a bounded control loop ([run]) around two external collaborators,
    the chat-completion endpoint and the Playwright page.

    Conventions.
    - A Python [str] is a sequence of Unicode code points: [list N].
    - An exception is a value of [exn]; a computation that may raise
      returns a [result].
    - Stateful code is written in a state-and-exception monad [M] over the
      agent's attributes, the local transcript of [run] and the trace of
      calls made to the collaborators.
    - The calls to [print] are left out; [get_page_info], [main] and the
      scripts around the module take no part in what is proved here. *)

From Stdlib Require Import Ascii String.
From Stdlib Require Import List NArith ZArith Bool Lia Arith Sorted.
Import ListNotations.

Set Implicit Arguments.

(** ** Python strings *)

Module Py.

Definition char := N.
Definition str := list char.

(** [u "..."] is the Python literal with the same ASCII text. *)
Definition u (s : string) : str := map N_of_ascii (list_ascii_of_string s).

Definition nl : char := 10%N.
Definition dquote : char := 34%N.

Fixpoint eqb (a b : str) : bool :=
  match a, b with
  | [], [] => true
  | x :: a', y :: b' => N.eqb x y && eqb a' b'
  | _, _ => false
  end.

(** [str.isspace] on one code point, as [str.strip()] with no argument
    uses it (CPython's [_PyUnicode_IsWhitespace]). *)
Definition is_space (c : char) : bool :=
  ((9 <=? c) && (c <=? 13) || (28 <=? c) && (c <=? 32)
   || (c =? 133) || (c =? 160) || (c =? 5760)
   || (8192 <=? c) && (c <=? 8202)
   || (c =? 8232) || (c =? 8233) || (c =? 8239) || (c =? 8287)
   || (c =? 12288))%N.

Fixpoint lstrip (s : str) : str :=
  match s with
  | c :: s' => if is_space c then lstrip s' else s
  | [] => []
  end.

Definition rstrip (s : str) : str := rev (lstrip (rev s)).

(** [s.strip()] *)
Definition strip (s : str) : str := rstrip (lstrip s).

(** [s.startswith(prefix)] *)
Fixpoint startswith (prefix s : str) : bool :=
  match prefix, s with
  | [], _ => true
  | p :: prefix', c :: s' => N.eqb p c && startswith prefix' s'
  | _ :: _, [] => false
  end.

(** [s.split(sep)] for a one-character separator: never an empty list. *)
Fixpoint split (sep : char) (s : str) : list str :=
  match s with
  | [] => [[]]
  | c :: s' =>
      if N.eqb c sep then [] :: split sep s'
      else match split sep s' with
           | cur :: rest => (c :: cur) :: rest
           | [] => [[c]]
           end
  end.

(** [s.replace(old, new)]: every non-overlapping occurrence of [old],
    scanning from the left.  [skip] counts the characters of an occurrence
    already replaced that are still to be dropped. *)
Fixpoint replace_from (old new s : str) (skip : nat) : str :=
  match s with
  | [] => []
  | c :: s' =>
      match skip with
      | S k => replace_from old new s' k
      | O =>
          if startswith old s
          then new ++ replace_from old new s' (pred (length old))
          else c :: replace_from old new s' 0
      end
  end.

Definition replace (old new s : str) : str :=
  match old with
  | [] => new ++ flat_map (fun c => c :: new) s
  | _ :: _ => replace_from old new s 0
  end.

(** [c in s] *)
Definition contains (c : char) (s : str) : bool := existsb (N.eqb c) s.

(** [s.index(c)]; the callers test [c in s] first. *)
Fixpoint index (c : char) (s : str) : nat :=
  match s with
  | [] => 0
  | x :: s' => if N.eqb x c then 0 else S (index c s')
  end.

(** [s.rindex(c)]: position of the last occurrence. *)
Definition rindex (c : char) (s : str) : nat :=
  length s - S (index c (rev s)).

(** [s[a:b]] for [0 <= a] and [0 <= b]. *)
Definition slice (a b : nat) (s : str) : str := firstn (b - a) (skipn a s).

End Py.

Import Py.

(** ** Python values and the [json] module

    [json.loads] and [json.dumps] belong to the Python standard library.
    [JSON.loads] follows the CPython decoder ([Modules/_json.c]) on [str]
    input: the RFC 8259 grammar, the constants [NaN], [Infinity] and
    [-Infinity], strict strings (no raw control character), and [None]
    for every input on which the decoder raises [JSONDecodeError].  A
    float is kept as the text of its literal: no floating-point conversion
    is modelled, and neither are the interpreter's limits on the depth of
    nesting and on the length of an integer literal. *)

Module JSON.

#[warnings="-register-all"]
Inductive value :=
| VNone
| VBool (b : bool)
| VInt (z : Z)
| VFloat (lexeme : str)
| VStr (s : str)
| VList (items : list value)
| VDict (items : list (str * value)).

Definition ch (a : ascii) : char := N_of_ascii a.

(** [d[k] = v] on a dict kept in insertion order. *)
Fixpoint dict_set (d : list (str * value)) (k : str) (v : value)
  : list (str * value) :=
  match d with
  | [] => [(k, v)]
  | (k', v') :: d' =>
      if Py.eqb k' k then (k', v) :: d' else (k', v') :: dict_set d' k v
  end.

Fixpoint dict_lookup (d : list (str * value)) (k : str) : option value :=
  match d with
  | [] => None
  | (k', v) :: d' => if Py.eqb k' k then Some v else dict_lookup d' k
  end.

Definition is_ws (c : char) : bool :=
  (N.eqb c 32 || N.eqb c 9 || N.eqb c 10 || N.eqb c 13)%N.

Fixpoint skip_ws (s : str) : str :=
  match s with
  | c :: s' => if is_ws c then skip_ws s' else s
  | [] => []
  end.

Definition is_digit (c : char) : bool := (N.leb 48 c && N.leb c 57)%N.

Fixpoint digits (s : str) : str * str :=
  match s with
  | c :: s' =>
      if is_digit c then let (d, r) := digits s' in (c :: d, r) else ([], s)
  | [] => ([], [])
  end.

Definition hex_digit (c : char) : option N :=
  if is_digit c then Some (c - 48)%N
  else if (N.leb 97 c && N.leb c 102)%N then Some (c - 87)%N
  else if (N.leb 65 c && N.leb c 70)%N then Some (c - 55)%N
  else None.

Definition hex4 (a b c d : char) : option N :=
  match hex_digit a, hex_digit b, hex_digit c, hex_digit d with
  | Some x, Some y, Some z, Some w => Some (((x * 16 + y) * 16 + z) * 16 + w)%N
  | _, _, _, _ => None
  end.

Definition is_high_surrogate (c : N) : bool := (N.leb 55296 c && N.leb c 56319)%N.
Definition is_low_surrogate (c : N) : bool := (N.leb 56320 c && N.leb c 57343)%N.
Definition join_surrogates (hi lo : N) : N :=
  (65536 + (N.lor (N.shiftl (N.land hi 1023) 10) (N.land lo 1023)))%N.

(** The one-letter escapes after a backslash. *)
Definition unescape (c : char) : option char :=
  if N.eqb c dquote then Some dquote
  else if N.eqb c (ch "\") then Some (ch "\")
  else if N.eqb c (ch "/") then Some (ch "/")
  else if N.eqb c (ch "b") then Some 8%N
  else if N.eqb c (ch "f") then Some 12%N
  else if N.eqb c (ch "n") then Some 10%N
  else if N.eqb c (ch "r") then Some 13%N
  else if N.eqb c (ch "t") then Some 9%N
  else None.

Definition push (c : char) (r : option (str * str)) : option (str * str) :=
  match r with
  | Some (s, rest) => Some (c :: s, rest)
  | None => None
  end.

(** [scanstring]: the input starts just after the opening quote; the
    result is the decoded string and what follows the closing quote. *)
Fixpoint scanstring (s : str) : option (str * str) :=
  match s with
  | [] => None
  | c :: s' =>
      if N.eqb c dquote then Some ([], s')
      else if N.eqb c (ch "\") then
        match s' with
        | [] => None
        | e :: s'' =>
            if N.eqb e (ch "u") then
              match s'' with
              | h1 :: h2 :: h3 :: h4 :: r =>
                  match hex4 h1 h2 h3 h4 with
                  | None => None
                  | Some cp =>
                      if is_high_surrogate cp then
                        match r with
                        | b :: v :: k1 :: k2 :: k3 :: k4 :: r' =>
                            if N.eqb b (ch "\") && N.eqb v (ch "u") then
                              match hex4 k1 k2 k3 k4 with
                              | None => None
                              | Some c2 =>
                                  if is_low_surrogate c2
                                  then push (join_surrogates cp c2) (scanstring r')
                                  else push cp (scanstring r)
                              end
                            else push cp (scanstring r)
                        | _ => push cp (scanstring r)
                        end
                      else push cp (scanstring r)
                  end
              | _ => None
              end
            else
              match unescape e with
              | Some c' => push c' (scanstring s'')
              | None => None
              end
        end
      else if N.leb c 31 then None
      else push c (scanstring s')
  end.

Fixpoint decimal (acc : Z) (ds : str) : Z :=
  match ds with
  | [] => acc
  | d :: ds' => decimal (acc * 10 + Z.of_N (d - 48)) ds'
  end.

(** The number grammar of the decoder: an optional minus sign; the digit
    0 or a non-zero digit followed by digits; optionally a dot and at
    least one digit; optionally e or E, an optional sign and at least one
    digit.  A fraction or exponent that does not match is left unread. *)
Definition minus_sign (s : str) : bool * str :=
  match s with
  | c :: s' => if N.eqb c (ch "-") then (true, s') else (false, s)
  | [] => (false, s)
  end.

Definition int_part (s : str) : option (str * str) :=
  match s with
  | c :: s' =>
      if (N.leb 49 c && N.leb c 57)%N
      then let (d, r) := digits s' in Some (c :: d, r)
      else if N.eqb c (ch "0") then Some ([c], s') else None
  | [] => None
  end.

Definition frac_part (s : str) : str * str :=
  match s with
  | dot :: d1 :: r =>
      if N.eqb dot (ch ".") && is_digit d1
      then let (d, r') := digits r in (dot :: d1 :: d, r')
      else ([], s)
  | _ => ([], s)
  end.

Definition exp_part (s : str) : str * str :=
  match s with
  | e :: r =>
      if N.eqb e (ch "e") || N.eqb e (ch "E") then
        let '(sign, r1) :=
          match r with
          | g :: r' =>
              if N.eqb g (ch "-") || N.eqb g (ch "+")
              then ([g], r') else ([], r)
          | [] => ([], r)
          end in
        match digits r1 with
        | ([], _) => ([], s)
        | (d, r2) => (e :: sign ++ d, r2)
        end
      else ([], s)
  | [] => ([], s)
  end.

Definition match_number (s : str) : option (value * str) :=
  let '(neg, s1) := minus_sign s in
  match int_part s1 with
  | None => None
  | Some (ip, s2) =>
      let '(frac, s3) := frac_part s2 in
      let '(exp, s4) := exp_part s3 in
      match frac, exp with
      | [], [] =>
          Some (VInt (if neg then - decimal 0 ip else decimal 0 ip), s4)
      | _, _ =>
          Some (VFloat ((if neg then [ch "-"] else []) ++ ip ++ frac ++ exp), s4)
      end
  end.

(** Outcome of a bounded scan. *)
Inductive scan (A : Type) :=
| Parsed (a : A) (rest : str)
| Invalid
| Exhausted.
Arguments Invalid {A}.
Arguments Exhausted {A}.

(** [scan_once] reads one JSON term; [parse_object] and [parse_array] are
    the loops of the decoder over the members of an object and the items
    of an array, entered at the first member. *)
Fixpoint scan_once (fuel : nat) (s : str) {struct fuel} : scan value :=
  match fuel with
  | O => Exhausted
  | S fuel' =>
      match s with
      | [] => Invalid
      | c :: s' =>
          if N.eqb c dquote then
            match scanstring s' with
            | Some (x, rest) => Parsed (VStr x) rest
            | None => Invalid
            end
          else if N.eqb c (ch "{") then
            match skip_ws s' with
            | c' :: rest =>
                if N.eqb c' (ch "}") then Parsed (VDict []) rest
                else parse_object fuel' (c' :: rest) []
            | [] => Invalid
            end
          else if N.eqb c (ch "[") then
            match skip_ws s' with
            | c' :: rest =>
                if N.eqb c' (ch "]") then Parsed (VList []) rest
                else parse_array fuel' (c' :: rest) []
            | [] => Invalid
            end
          else if startswith (u "null") s then Parsed VNone (skipn 4 s)
          else if startswith (u "true") s then Parsed (VBool true) (skipn 4 s)
          else if startswith (u "false") s then Parsed (VBool false) (skipn 5 s)
          else if startswith (u "NaN") s then Parsed (VFloat (u "NaN")) (skipn 3 s)
          else if startswith (u "Infinity") s
               then Parsed (VFloat (u "Infinity")) (skipn 8 s)
          else if startswith (u "-Infinity") s
               then Parsed (VFloat (u "-Infinity")) (skipn 9 s)
          else
            match match_number s with
            | Some (v, rest) => Parsed v rest
            | None => Invalid
            end
      end
  end

with parse_object (fuel : nat) (s : str) (acc : list (str * value))
  {struct fuel} : scan value :=
  match fuel with
  | O => Exhausted
  | S fuel' =>
      match s with
      | q :: s1 =>
          if N.eqb q dquote then
            match scanstring s1 with
            | None => Invalid
            | Some (key, s2) =>
                match skip_ws s2 with
                | colon :: s3 =>
                    if N.eqb colon (ch ":") then
                      match scan_once fuel' (skip_ws s3) with
                      | Parsed v s4 =>
                          match skip_ws s4 with
                          | d :: s5 =>
                              if N.eqb d (ch "}")
                              then Parsed (VDict (dict_set acc key v)) s5
                              else if N.eqb d (ch ",")
                              then parse_object fuel' (skip_ws s5)
                                     (dict_set acc key v)
                              else Invalid
                          | [] => Invalid
                          end
                      | Invalid => Invalid
                      | Exhausted => Exhausted
                      end
                    else Invalid
                | [] => Invalid
                end
            end
          else Invalid
      | [] => Invalid
      end
  end

with parse_array (fuel : nat) (s : str) (acc : list value)
  {struct fuel} : scan value :=
  match fuel with
  | O => Exhausted
  | S fuel' =>
      match scan_once fuel' s with
      | Parsed v s1 =>
          match skip_ws s1 with
          | d :: s2 =>
              if N.eqb d (ch "]") then Parsed (VList (acc ++ [v])) s2
              else if N.eqb d (ch ",")
              then parse_array fuel' (skip_ws s2) (acc ++ [v])
              else Invalid
          | [] => Invalid
          end
      | Invalid => Invalid
      | Exhausted => Exhausted
      end
  end.

(** [json.loads(s)]: one term between optional white space.  The bound
    [2 * len(s) + 2] on the number of nested calls is never reached
    ([scan_once_fuel] below). *)
Definition loads (s : str) : option value :=
  let s0 := skip_ws s in
  match scan_once (2 * length s0 + 2) s0 with
  | Parsed v rest =>
      match skip_ws rest with
      | [] => Some v
      | _ :: _ => None
      end
  | Invalid => None
  | Exhausted => None
  end.

End JSON.

Import JSON.

(** ** Exceptions *)

Inductive exn :=
| JSONDecodeError               (* raised by [json.loads] *)
| AttributeError (msg : str)    (* a method looked up on the wrong type *)
| Error (msg : str).            (* raised by an external collaborator *)

(** [str(e)].  The diagnostic text of a [JSONDecodeError] is not
    modelled; no handler of this module reads it. *)
Definition exn_str (e : exn) : str :=
  match e with
  | JSONDecodeError => []
  | AttributeError msg => msg
  | Error msg => msg
  end.

Inductive result (A : Type) :=
| Ok (a : A)
| Raise (e : exn).
Arguments Raise {A} e.

(** ** The response parser: [parse_llm_response] *)

Definition THOUGHT : str := u "Thought:".
Definition ACTION : str := u "Action:".
Definition ACTION_INPUT : str := u "Action Input:".
Definition FINAL_ANSWER : str := u "Final Answer:".
Definition FINISH : str := u "FINISH".

(** The tuple [(thought, action, params)] built by the parser. *)
Record directive := Directive {
  thought : str;
  action : str;
  params : value
}.

(** [lines[i].strip().startswith(("Thought:", "Action:", "Final Answer:"))],
    the test that ends the lines of an [Action Input:] block. *)
Definition ends_block (raw : str) : bool :=
  let line := strip raw in
  startswith THOUGHT line || startswith ACTION line
  || startswith FINAL_ANSWER line.

(** The [try]/[except json.JSONDecodeError] of the parser.  The second
    [json.loads] sits in the handler, outside any [try]. *)
Definition decode_params (json_str : str) (params : value) : result value :=
  match loads json_str with
  | Some v => Ok v
  | None =>
      if contains (ch "{") json_str && contains (ch "}") json_str then
        let json_start := index (ch "{") json_str in
        let json_end := rindex (ch "}") json_str + 1 in
        match loads (slice json_start json_end json_str) with
        | Some v => Ok v
        | None => Raise JSONDecodeError
        end
      else Ok params
  end.

(** The [while i < len(lines)] loop.  [lines] is the part of the list
    from the cursor [i] on.  The inner [fix] is the inner [while]: it
    appends lines to [json_str] until one ends the block, then steps the
    cursor back so that the outer loop resumes on that very line. *)
Fixpoint scan_lines (lines : list str) (d : directive) {struct lines}
  : result directive :=
  match lines with
  | [] => Ok d
  | raw :: rest =>
      let line := strip raw in
      if startswith THOUGHT line then
        scan_lines rest
          (Directive (strip (replace THOUGHT [] line)) (action d) (params d))
      else if startswith ACTION line then
        scan_lines rest
          (Directive (thought d) (strip (replace ACTION [] line)) (params d))
      else if startswith ACTION_INPUT line then
        (fix accumulate (ls : list str) (json_str : str) {struct ls}
           : result directive :=
           match ls with
           | next :: ls' =>
               if ends_block next then
                 match decode_params json_str (params d) with
                 | Ok p => scan_lines ls (Directive (thought d) (action d) p)
                 | Raise e => Raise e
                 end
               else accumulate ls' (json_str ++ nl :: strip next)
           | [] =>
               match decode_params json_str (params d) with
               | Ok p => Ok (Directive (thought d) (action d) p)
               | Raise e => Raise e
               end
           end) rest (strip (replace ACTION_INPUT [] line))
      else if startswith FINAL_ANSWER line then
        Ok (Directive (strip (replace FINAL_ANSWER [] line)) FINISH (params d))
      else scan_lines rest d
  end.

Definition parse_llm_response (response : str) : result directive :=
  scan_lines (split nl (strip response)) (Directive [] [] (VDict [])).

(** Lines of text joined by newlines, to write multi-line replies. *)
Fixpoint text (ls : list str) : str :=
  match ls with
  | [] => []
  | [l] => l
  | l :: ls' => l ++ nl :: text ls'
  end.

(** ** Transcript and action outcomes *)

Inductive role_name := system | user | assistant.

(** [{"role": ..., "content": ...}].  The content of a completion is
    optional in the client library. *)
Record message := Message {
  role : role_name;
  content : option str
}.

(** The dict returned by [execute_action]:
    [{"success": True, "result": r}] or [{"success": False, "error": m}]. *)
Inductive outcome :=
| Succeeded (result : option str)
| Failed (error : str).

Definition success (o : outcome) : bool :=
  match o with
  | Succeeded _ => true
  | Failed _ => false
  end.

Module Dumps.

Definition hex_char (n : N) : char :=
  if N.ltb n 10 then (48 + n)%N else (87 + n)%N.

(** ["\\u{0:04x}"] *)
Definition u_escape (n : N) : str :=
  ch "\" :: ch "u" ::
  [hex_char (N.shiftr n 12 mod 16); hex_char (N.shiftr n 8 mod 16);
   hex_char (N.shiftr n 4 mod 16); hex_char (n mod 16)]%N.

(** One character under [ensure_ascii=True]. *)
Definition escape_char (c : char) : str :=
  if N.eqb c (ch "\") then [ch "\"; ch "\"]
  else if N.eqb c dquote then [ch "\"; dquote]
  else if N.eqb c 8 then [ch "\"; ch "b"]
  else if N.eqb c 12 then [ch "\"; ch "f"]
  else if N.eqb c 10 then [ch "\"; ch "n"]
  else if N.eqb c 13 then [ch "\"; ch "r"]
  else if N.eqb c 9 then [ch "\"; ch "t"]
  else if (N.leb 32 c && N.leb c 126)%N then [c]
  else if N.ltb c 65536 then u_escape c
  else
    let n := (c - 65536)%N in
    u_escape (N.lor 55296 (N.land (N.shiftr n 10) 1023))
    ++ u_escape (N.lor 56320 (N.land n 1023)).

Definition dumps_str (s : str) : str :=
  dquote :: flat_map escape_char s ++ [dquote].

Definition key (k : string) : str := dquote :: u k ++ dquote :: u ": ".

(** [json.dumps(result)] for the dict built by [execute_action]. *)
Definition dumps (o : outcome) : str :=
  match o with
  | Succeeded r =>
      u "{" ++ key "success" ++ u "true, " ++ key "result"
        ++ match r with Some s => dumps_str s | None => u "null" end
        ++ u "}"
  | Failed m =>
      u "{" ++ key "success" ++ u "false, " ++ key "error"
        ++ dumps_str m ++ u "}"
  end.

End Dumps.

(** ** The collaborators, the state and the monad *)

(** The three Playwright objects held by the agent. *)
Inductive resource := ThePlaywright | TheBrowser | ThePage.

(** A chat completion returns a message content or raises. *)
Inductive reply :=
| Content (c : option str)
| Fails (e : exn).

(** The automation calls made on [self.page]. *)
Inductive page_call :=
| Goto (url : value)
| Click (selector : value)
| Fill (selector text : value)
| TextContent (selector : value)
| Screenshot (path : value).

Inductive call_result :=
| Returns (v : option str)
| Raises (e : exn).

(** What a run does to the world, in order.  [Execute] marks a call of
    [run] to [execute_action]. *)
Inductive event :=
| Acquired (r : resource)
| Released (r : resource)
| Completion (transcript : list message) (r : reply)
| Execute (action : str) (params : value)
| Automation (c : page_call) (r : call_result).

(** The attributes of a [BrowserAgent] that the methods read or write.
    [self.history] is never used. *)
Record BrowserAgent := Agent {
  playwright : option resource;
  browser : option resource;
  page : option resource;
  max_iterations : nat
}.

(** [BrowserAgent.__init__] *)
Definition init : BrowserAgent := Agent None None None 10.

(** [messages] is the local list of [run]; it is kept in the state so that
    it can be inspected when [run] is left. *)
Record state := State {
  self : BrowserAgent;
  messages : list message;
  trace : list event
}.

Definition fresh : state := State init [] [].

Definition M (A : Type) : Type := state -> result A * state.

Definition ret {A} (a : A) : M A := fun st => (Ok a, st).

Definition bind {A B} (m : M A) (f : A -> M B) : M B :=
  fun st =>
    match m st with
    | (Ok a, st') => f a st'
    | (Raise e, st') => (Raise e, st')
    end.

Definition raise {A} (e : exn) : M A := fun st => (Raise e, st).

(** [try: m  except Exception as e: h e] *)
Definition try_except {A} (m : M A) (h : exn -> M A) : M A :=
  fun st =>
    match m st with
    | (Ok a, st') => (Ok a, st')
    | (Raise e, st') => h e st'
    end.

(** [try: m  finally: fin] *)
Definition try_finally {A} (m : M A) (fin : M unit) : M A :=
  fun st =>
    let (r, st') := m st in
    match fin st' with
    | (Ok _, st'') => (r, st'')
    | (Raise e, st'') => (Raise e, st'')
    end.

Declare Scope monad_scope.
Delimit Scope monad_scope with monad.
Notation "x <- m ;; k" := (bind m (fun x => k))
  (at level 61, m at next level, right associativity) : monad_scope.
Notation "m ;;; k" := (bind m (fun _ => k))
  (at level 61, right associativity) : monad_scope.
Open Scope monad_scope.

Definition emit (ev : event) : M unit :=
  fun st => (Ok tt, State (self st) (messages st) (trace st ++ [ev])).

(** [self.attr = ...] *)
Definition assign (f : BrowserAgent -> BrowserAgent) : M unit :=
  fun st => (Ok tt, State (f (self st)) (messages st) (trace st)).

Definition set_playwright (r : resource) (a : BrowserAgent) : BrowserAgent :=
  Agent (Some r) (browser a) (page a) (max_iterations a).
Definition set_browser (r : resource) (a : BrowserAgent) : BrowserAgent :=
  Agent (playwright a) (Some r) (page a) (max_iterations a).
Definition set_page (r : resource) (a : BrowserAgent) : BrowserAgent :=
  Agent (playwright a) (browser a) (Some r) (max_iterations a).

Definition get_self : M BrowserAgent := fun st => (Ok (self st), st).

Definition set_messages (ms : list message) : M unit :=
  fun st => (Ok tt, State (self st) ms (trace st)).

(** [messages.append(m)] *)
Definition append (m : message) : M unit :=
  fun st => (Ok tt, State (self st) (messages st ++ [m]) (trace st)).

Definition is_completion (ev : event) : bool :=
  match ev with Completion _ _ => true | _ => false end.
Definition is_execute (ev : event) : bool :=
  match ev with Execute _ _ => true | _ => false end.
Definition is_automation (ev : event) : bool :=
  match ev with Automation _ _ => true | _ => false end.

Definition count (p : event -> bool) (tr : list event) : nat :=
  length (filter p tr).

(** ** The agent *)

Definition quoted (s : string) : str := dquote :: u s ++ [dquote].

(** [create_system_prompt] *)
Definition create_system_prompt : str :=
  text
    [u "You are a browser automation agent. You can interact with web pages using the following actions:";
     [];
     u "1. navigate - Navigate to a URL";
     u "   Action Input: {" ++ quoted "url" ++ u ": "
       ++ quoted "https://example.com" ++ u "}";
     [];
     u "2. click - Click on an element";
     u "   Action Input: {" ++ quoted "selector" ++ u ": "
       ++ quoted "button#submit" ++ u "}";
     [];
     u "3. type - Type text into an element";
     u "   Action Input: {" ++ quoted "selector" ++ u ": "
       ++ quoted "input#search" ++ u ", " ++ quoted "text" ++ u ": "
       ++ quoted "search query" ++ u "}";
     [];
     u "4. get_text - Get text from an element";
     u "   Action Input: {" ++ quoted "selector" ++ u ": " ++ quoted "h1"
       ++ u "}";
     [];
     u "5. screenshot - Take a screenshot";
     u "   Action Input: {" ++ quoted "path" ++ u ": "
       ++ quoted "screenshot.png" ++ u "}";
     [];
     u "Use the ReAct format to reason and act:";
     [];
     u "Thought: [Your reasoning about what to do next]";
     u "Action: [The action to take: navigate, click, type, get_text, or screenshot]";
     u "Action Input: [JSON parameters for the action]";
     [];
     u "After receiving the observation, continue reasoning. When you've completed the task, use:";
     [];
     u "Final Answer: [Summary of what was accomplished]";
     [];
     u "Always reason step by step and explain your actions."].

Definition EXHAUSTED : str :=
  u "Maximum iterations reached without completion.".

Definition CLARIFY : str :=
  u "Please provide a valid action in the specified format.".

Definition OBSERVATION : str := u "Observation: ".

(** [type(v).__name__] *)
Definition type_name (v : value) : str :=
  match v with
  | VNone => u "NoneType"
  | VBool _ => u "bool"
  | VInt _ => u "int"
  | VFloat _ => u "float"
  | VStr _ => u "str"
  | VList _ => u "list"
  | VDict _ => u "dict"
  end.

Definition no_attribute (type attr : str) : exn :=
  AttributeError (u "'" ++ type ++ u "' object has no attribute '" ++ attr ++ u "'").

(** [params.get(key, default)]: only a dict has the method. *)
Definition get (params : value) (key : str) (default : value) : M value :=
  match params with
  | VDict d =>
      ret (match dict_lookup d key with Some v => v | None => default end)
  | other => raise (no_attribute (type_name other) (u "get"))
  end.

Section Agent.

(** The world outside the module.
    - [repr_of v] is the text Python puts for a non-string [v] in an
      f-string.
    - [acquire r headless] tells whether creating [r] in [start_browser]
      raises.
    - [model k] is the outcome of the completion request number [k] of the
      run (the endpoint samples its answers: a run sees one reply per
      request, and the transcript sent with it is recorded in the trace).
    - [automation k c] is the outcome of the automation call number [k],
      which is [c]. *)
Variable repr_of : value -> str.
Variable acquire : resource -> bool -> option exn.
Variable model : nat -> reply.
Variable automation : nat -> page_call -> call_result.

(** [f"{v}"] *)
Definition fmt (v : value) : str :=
  match v with
  | VStr s => s
  | other => repr_of other
  end.

Definition create (r : resource) (headless : bool) : M unit :=
  match acquire r headless with
  | None => emit (Acquired r)
  | Some e => raise e
  end.

(** [start_browser] *)
Definition start_browser (headless : bool) : M unit :=
  create ThePlaywright headless ;;;
  assign (set_playwright ThePlaywright) ;;;
  create TheBrowser headless ;;;
  assign (set_browser TheBrowser) ;;;
  create ThePage headless ;;;
  assign (set_page ThePage).

(** [if attr: attr.close()]; closing returns normally. *)
Definition release (attr : BrowserAgent -> option resource) : M unit :=
  fun st =>
    match attr (self st) with
    | Some r => emit (Released r) st
    | None => (Ok tt, st)
    end.

(** [stop_browser] *)
Definition stop_browser : M unit :=
  release page ;;; release browser ;;; release playwright.

(** One call on [self.page]. *)
Definition call_page (c : page_call) : M (option str) :=
  fun st =>
    let r := automation (count is_automation (trace st)) c in
    let st' := State (self st) (messages st) (trace st ++ [Automation c r]) in
    match r with
    | Returns v => (Ok v, st')
    | Raises e => (Raise e, st')
    end.

(** The body of the [try] of [execute_action]. *)
Definition dispatch (action : str) (params : value) : M outcome :=
  if Py.eqb action (u "navigate") then
    url <- get params (u "url") (VStr []) ;;
    call_page (Goto url) ;;;
    ret (Succeeded (Some (u "Navigated to " ++ fmt url)))
  else if Py.eqb action (u "click") then
    selector <- get params (u "selector") (VStr []) ;;
    call_page (Click selector) ;;;
    ret (Succeeded (Some (u "Clicked on " ++ fmt selector)))
  else if Py.eqb action (u "type") then
    selector <- get params (u "selector") (VStr []) ;;
    text <- get params (u "text") (VStr []) ;;
    call_page (Fill selector text) ;;;
    ret (Succeeded
           (Some (u "Typed '" ++ fmt text ++ u "' into " ++ fmt selector)))
  else if Py.eqb action (u "get_text") then
    selector <- get params (u "selector") (VStr []) ;;
    text <- call_page (TextContent selector) ;;
    ret (Succeeded text)
  else if Py.eqb action (u "screenshot") then
    path <- get params (u "path") (VStr (u "screenshot.png")) ;;
    call_page (Screenshot path) ;;;
    ret (Succeeded (Some (u "Screenshot saved to " ++ fmt path)))
  else ret (Failed (u "Unknown action: " ++ action)).

(** [execute_action] *)
Definition execute_action (action : str) (params : value) : M outcome :=
  fun st =>
    match page (self st) with
    | None => (Ok (Failed (u "Browser not started")), st)
    | Some _ =>
        try_except (dispatch action params)
          (fun e => ret (Failed (exn_str e))) st
    end.

(** [self.client.chat.completions.create(...)] and the selection of the
    message content. *)
Definition chat_completion : M (option str) :=
  fun st =>
    let r := model (count is_completion (trace st)) in
    let st' := State (self st) (messages st)
                 (trace st ++ [Completion (messages st) r]) in
    match r with
    | Content c => (Ok c, st')
    | Fails e => (Raise e, st')
    end.

(** [self.parse_llm_response(assistant_message)]: a content that is
    [None] has no [strip]. *)
Definition parse_content (assistant_message : option str) : M directive :=
  match assistant_message with
  | Some response =>
      match parse_llm_response response with
      | Ok d => ret d
      | Raise e => raise e
      end
  | None => raise (no_attribute (u "NoneType") (u "strip"))
  end.

(** The body of [for iteration in range(self.max_iterations)]: [Some t]
    stands for [return t], [None] for reaching the end of the body. *)
Definition iteration : M (option str) :=
  assistant_message <- chat_completion ;;
  append (Message assistant assistant_message) ;;;
  d <- parse_content assistant_message ;;
  if Py.eqb (action d) FINISH then ret (Some (thought d))
  else
    match action d with
    | _ :: _ =>
        emit (Execute (action d) (params d)) ;;;
        result <- execute_action (action d) (params d) ;;
        append (Message user (Some (OBSERVATION ++ Dumps.dumps result)))
    | [] => append (Message user (Some CLARIFY))
    end ;;;
    ret None.

(** The [for] loop and the [return] that follows it. *)
Fixpoint loop (remaining : nat) : M str :=
  match remaining with
  | O => ret EXHAUSTED
  | S remaining' =>
      r <- iteration ;;
      match r with
      | Some t => ret t
      | None => loop remaining'
      end
  end.

(** [run] *)
Definition run (task : str) (headless : bool) : M str :=
  try_finally
    (start_browser headless ;;;
     set_messages [Message system (Some create_system_prompt);
                   Message user (Some (u "Task: " ++ task))] ;;;
     agent <- get_self ;;
     loop (max_iterations agent))
    stop_browser.

End Agent.

(** ** Notions used to state the properties *)

(** The inner [while] of the parser on its own: the text accumulated from
    [json_str] on, and the lines left for the outer loop. *)
Fixpoint accumulate (ls : list str) (json_str : str) : str * list str :=
  match ls with
  | next :: ls' =>
      if ends_block next then (json_str, ls)
      else accumulate ls' (json_str ++ nl :: strip next)
  | [] => (json_str, [])
  end.


(** The five action names of the dispatch. *)
Definition recognized (action : str) : bool :=
  existsb (Py.eqb action)
    [u "navigate"; u "click"; u "type"; u "get_text"; u "screenshot"].

(** A new agent whose [max_iterations] was set to [m], before any run. *)
Definition configured (m : nat) : state := State (Agent None None None m) [] [].




(** Creation or release of a Playwright object. *)
Definition is_lifecycle (ev : event) : bool :=
  match ev with Acquired _ | Released _ => true | _ => false end.

(** The transcripts sent to the model, in order. *)
Fixpoint sent (tr : list event) : list (list message) :=
  match tr with
  | [] => []
  | Completion t _ :: tr' => t :: sent tr'
  | _ :: tr' => sent tr'
  end.

(** The completion requests that returned. *)
Definition is_returned (ev : event) : bool :=
  match ev with Completion _ (Content _) => true | _ => false end.

Definition is_assistant (m : message) : bool :=
  match role m with assistant => true | _ => false end.

Definition prefix (a b : list message) : Prop := exists d, b = a ++ d.

(** The content of the user message that follows a model message. *)
Definition follow_up (x : str) : Prop :=
  x = CLARIFY \/ exists o, x = OBSERVATION ++ Dumps.dumps o.

(** What the iterations of a run append to the transcript: rounds of one
    model message and one follow-up, the last round possibly without its
    follow-up. *)
Inductive rounds : list message -> Prop :=
| rounds_none : rounds []
| rounds_last c : rounds [Message assistant c]
| rounds_more c x rest :
    follow_up x -> rounds rest ->
    rounds (Message assistant c :: Message user (Some x) :: rest).

(** The state in which [run] enters its loop when the three Playwright
    objects were created: the agent holds them and the trace records that. *)
Definition entered (m : nat) (task : str) : state :=
  State (Agent (Some ThePlaywright) (Some TheBrowser) (Some ThePage) m)
    [Message system (Some create_system_prompt);
     Message user (Some (u "Task: " ++ task))]
    [Acquired ThePlaywright; Acquired TheBrowser; Acquired ThePage].

(** The calls of [stop_browser] on an agent that holds the three objects. *)
Definition closing : list event :=
  [Released ThePage; Released TheBrowser; Released ThePlaywright].

(** The transcript that [run] starts from. *)
Definition seed (task : str) : list message :=
  [Message system (Some create_system_prompt);
   Message user (Some (u "Task: " ++ task))].

(** [d.get(key, default)] on the items of a dict. *)
Definition param (d : list (str * value)) (key : str) (default : value)
  : value :=
  match dict_lookup d key with
  | Some v => v
  | None => default
  end.

(** [performs automation st c ok]: what [execute_action] yields from [st]
    when it makes the one automation call [c]: the call is added to the
    trace, a return value [v] gives the outcome [ok v], an exception gives
    a failed outcome with its message. *)
Definition performs (automation : nat -> page_call -> call_result)
  (st : state) (c : page_call) (ok : option str -> outcome)
  : result outcome * state :=
  let r := automation (count is_automation (trace st)) c in
  (Ok (match r with
       | Returns v => ok v
       | Raises e => Failed (exn_str e)
       end),
   State (self st) (messages st) (trace st ++ [Automation c r])).

(** An agent whose browser was started, before any call. *)
Definition started : state :=
  State (Agent (Some ThePlaywright) (Some TheBrowser) (Some ThePage) 10) [] [].

Section Steps.

Variable repr_of : value -> str.
Variable model : nat -> reply.
Variable automation : nat -> page_call -> call_result.


(** The state after the completion request of an iteration and the
    [append] of its answer. *)
Definition answered (st : state) (c : option str) : state :=
  State (self st) (messages st ++ [Message assistant c])
    (trace st ++ [Completion (messages st) (Content c)]).

(** One iteration of the loop, case by case. *)
Inductive step (st : state) : result (option str) -> state -> Prop :=
| step_fails e :
    model (count is_completion (trace st)) = Fails e ->
    step st (Raise e)
      (State (self st) (messages st)
         (trace st ++ [Completion (messages st) (Fails e)]))
| step_no_content :
    model (count is_completion (trace st)) = Content None ->
    step st (Raise (no_attribute (u "NoneType") (u "strip")))
      (answered st None)
| step_parser_raises r e :
    model (count is_completion (trace st)) = Content (Some r) ->
    parse_llm_response r = Raise e ->
    step st (Raise e) (answered st (Some r))
| step_finish r d :
    model (count is_completion (trace st)) = Content (Some r) ->
    parse_llm_response r = Ok d ->
    Py.eqb (action d) FINISH = true ->
    step st (Ok (Some (thought d))) (answered st (Some r))
| step_clarify r d :
    model (count is_completion (trace st)) = Content (Some r) ->
    parse_llm_response r = Ok d ->
    Py.eqb (action d) FINISH = false ->
    action d = [] ->
    step st (Ok None)
      (State (self st)
         (messages st ++ [Message assistant (Some r);
                          Message user (Some CLARIFY)])
         (trace st ++ [Completion (messages st) (Content (Some r))]))
| step_execute r d o evs :
    model (count is_completion (trace st)) = Content (Some r) ->
    parse_llm_response r = Ok d ->
    Py.eqb (action d) FINISH = false ->
    action d <> [] ->
    Forall (fun ev => is_automation ev = true) evs ->
    step st (Ok None)
      (State (self st)
         (messages st ++ [Message assistant (Some r);
                          Message user (Some (OBSERVATION ++ Dumps.dumps o))])
         (trace st ++ Completion (messages st) (Content (Some r))
                      :: Execute (action d) (params d) :: evs)).

End Steps.

(** ** Concrete worlds, to run the agent *)

Module World.

(** Every object is created, every automation call returns nothing. *)
Definition acquire : resource -> bool -> option exn := fun _ _ => None.
Definition automation : nat -> page_call -> call_result :=
  fun _ _ => Returns None.

(** No value other than a string is formatted in the runs below. *)
Definition repr_of : value -> str := fun _ => [].

Definition navigate_reply : str :=
  text [u "Thought: I need to navigate to the website";
        u "Action: navigate";
        u "Action Input: {" ++ quoted "url" ++ u ": "
          ++ quoted "https://example.com" ++ u "}"].

(** A model that asks for one navigation, then gives its final answer. *)
Definition two_steps : nat -> reply :=
  fun k =>
    match k with
    | O => Content (Some navigate_reply)
    | S _ => Content (Some (u "Final Answer: Done"))
    end.



End World.

(** ** Further notions, for the properties beyond the specification *)

(** The lines that the parser scans. *)
Definition lines_of (response : str) : list str := split nl (strip response).

(** The line begins, once stripped, with one of the four markers. *)
Definition marked (raw : str) : bool :=
  let line := strip raw in
  startswith THOUGHT line || startswith ACTION line
  || startswith ACTION_INPUT line || startswith FINAL_ANSWER line.


(** An automation call that returned. *)
Definition is_returned_call (ev : event) : bool :=
  match ev with Automation _ (Returns _) => true | _ => false end.

(** What a computation added to the trace of [st]. *)
Definition added (st st' : state) : list event :=
  skipn (length (trace st)) (trace st').

(** ** [get_page_info]

    The method reads three things from [self.page], in the order in which
    the dict is written.  [inspect] tells what each read gives; the calls
    made are returned beside the result. *)

Inductive info_call := ReadUrl | ReadTitle | ReadContent.

Inductive read_result :=
| Read (s : str)
| ReadFails (e : exn).

(** [{"url": ..., "title": ..., "content": ...}] or [{"error": ...}]. *)
Inductive page_info :=
| PageInfo (url title content : str)
| InfoError (error : str).

Definition get_page_info (inspect : info_call -> read_result)
  (agent : BrowserAgent) : page_info * list info_call :=
  match page agent with
  | None => (InfoError (u "Browser not started"), [])
  | Some _ =>
      match inspect ReadUrl with
      | ReadFails e => (InfoError (exn_str e), [ReadUrl])
      | Read url =>
          match inspect ReadTitle with
          | ReadFails e => (InfoError (exn_str e), [ReadUrl; ReadTitle])
          | Read title =>
              match inspect ReadContent with
              | ReadFails e =>
                  (InfoError (exn_str e), [ReadUrl; ReadTitle; ReadContent])
              | Read content =>
                  (PageInfo url title (slice 0 1000 content),
                   [ReadUrl; ReadTitle; ReadContent])
              end
          end
      end
  end.

(** The reads of a list that are made when each one is made only if the
    reads before it returned. *)
Fixpoint until_failure (inspect : info_call -> read_result)
  (calls : list info_call) : list info_call :=
  match calls with
  | [] => []
  | c :: calls' =>
      match inspect c with
      | Read _ => c :: until_failure inspect calls'
      | ReadFails _ => [c]
      end
  end.

(** ** Notions on transcripts and traces *)

Definition other_speaker (r : role_name) : role_name :=
  match r with
  | user => assistant
  | assistant => user
  | system => system
  end.

Definition role_eqb (a b : role_name) : bool :=
  match a, b with
  | system, system | user, user | assistant, assistant => true
  | _, _ => false
  end.

(** The roles of [ms] go [next], the other speaker, [next], and so on. *)
Fixpoint alternates (next : role_name) (ms : list message) : bool :=
  match ms with
  | [] => true
  | m :: ms' => role_eqb (role m) next && alternates (other_speaker next) ms'
  end.


(** The executor is called with a proper action name. *)
Definition proper_execute (ev : event) : bool :=
  match ev with
  | Execute a _ => negb (Py.eqb a []) && negb (Py.eqb a FINISH)
  | _ => true
  end.

Module More.





End More.

(** * Facts

    ** The embedding on concrete inputs *)

Example split_lines :
  split nl (u "a" ++ [nl] ++ u "b" ++ [nl]) = [u "a"; u "b"; []].
Proof. reflexivity. Qed.

Example replace_all :
  replace (u "ab") [] (u "xabyabab") = u "xy".
Proof. reflexivity. Qed.

Example strip_both : strip (u "  a b ") = u "a b".
Proof. reflexivity. Qed.

Example rindex_last : rindex 125%N (u "{a}}") = 3.
Proof. reflexivity. Qed.

Example loads_url :
  loads (u "{" ++ [dquote] ++ u "url" ++ [dquote] ++ u ": " ++ [dquote]
           ++ u "https://example.com" ++ [dquote] ++ u "}")
  = Some (VDict [(u "url", VStr (u "https://example.com"))]).
Proof. vm_compute. reflexivity. Qed.

Example loads_empty : loads [] = None.
Proof. reflexivity. Qed.

Example loads_bad : loads (u "{bad}") = None.
Proof. reflexivity. Qed.

Example loads_nested :
  loads (u "[1, -2.5e3, true, null, [], {}]")
  = Some (VList [VInt 1; VFloat (u "-2.5e3"); VBool true; VNone;
                 VList []; VDict []]).
Proof. vm_compute. reflexivity. Qed.

(** The first case of the test suite ([test_action_parsing]). *)
Example parse_navigate :
  parse_llm_response
    (text [u "Thought: I need to navigate to the website";
           u "Action: navigate";
           u "Action Input: {" ++ [dquote] ++ u "url" ++ [dquote] ++ u ": "
             ++ [dquote] ++ u "https://example.com" ++ [dquote] ++ u "}"])
  = Ok (Directive (u "I need to navigate to the website") (u "navigate")
          (VDict [(u "url", VStr (u "https://example.com"))])).
Proof. vm_compute. reflexivity. Qed.

Example parse_final :
  parse_llm_response (u "Final Answer: Task completed successfully")
  = Ok (Directive (u "Task completed successfully") FINISH (VDict [])).
Proof. vm_compute. reflexivity. Qed.

Example parse_multiline_input :
  parse_llm_response
    (text [u "Action Input: {"; u "  } "; u "Thought: next"])
  = Ok (Directive (u "next") [] (VDict [])).
Proof. vm_compute. reflexivity. Qed.

Example parse_bad :
  parse_llm_response (u "Action Input: {bad}") = Raise JSONDecodeError.
Proof. vm_compute. reflexivity. Qed.

Example dumps_failed :
  Dumps.dumps (Failed (u "Browser not started"))
  = u "{" ++ [dquote] ++ u "success" ++ [dquote] ++ u ": false, " ++ [dquote]
      ++ u "error" ++ [dquote] ++ u ": " ++ [dquote] ++ u "Browser not started"
      ++ [dquote] ++ u "}".
Proof. reflexivity. Qed.

(** An [Action Input:] line directly followed by a marker line: the
    fragment is empty, [json.loads] rejects it, no brace is found and the
    parameters stay as they were. *)
Example parse_empty_fragment :
  parse_llm_response
    (text [u "Action: click"; u "Action Input:"; u "Thought: what now"])
  = Ok (Directive (u "what now") (u "click") (VDict [])).
Proof. vm_compute. reflexivity. Qed.

(** A fragment with an opening brace only: no fallback, no parameters. *)
Example parse_truncated_braces :
  parse_llm_response
    (text [u "Action: navigate";
           u "Action Input: {" ++ quoted "url" ++ u ": "])
  = Ok (Directive [] (u "navigate") (VDict [])).
Proof. vm_compute. reflexivity. Qed.

(** The cases of [test_browser_actions]. *)
Example execute_navigate :
  execute_action World.repr_of World.automation (u "navigate")
    (VDict [(u "url", VStr (u "https://example.com"))]) started
  = (Ok (Succeeded (Some (u "Navigated to https://example.com"))),
     State (self started) []
       [Automation (Goto (VStr (u "https://example.com"))) (Returns None)]).
Proof. vm_compute. reflexivity. Qed.

Example execute_unknown :
  execute_action World.repr_of World.automation (u "unknown") (VDict [])
    started
  = (Ok (Failed (u "Unknown action: unknown")), started).
Proof. vm_compute. reflexivity. Qed.

(** Parameters that are not a dict: the missing [get] is caught like any
    failure of the page. *)
Example execute_list_params :
  execute_action World.repr_of World.automation (u "click") (VList [])
    started
  = (Ok (Failed (u "'list' object has no attribute 'get'")), started).
Proof. vm_compute. reflexivity. Qed.

Example dumps_navigated :
  Dumps.dumps (Succeeded (Some (u "Navigated to https://example.com")))
  = u "{" ++ quoted "success" ++ u ": true, " ++ quoted "result" ++ u ": "
      ++ quoted "Navigated to https://example.com" ++ u "}".
Proof. vm_compute. reflexivity. Qed.

(** A whole run: one navigation, then the final answer. *)
Example run_two_steps :
  let task := u "open the page" in
  let observed :=
    seed task
    ++ [Message assistant (Some World.navigate_reply);
        Message user
          (Some (OBSERVATION
                 ++ Dumps.dumps
                      (Succeeded
                         (Some (u "Navigated to https://example.com")))))] in
  run World.repr_of World.acquire World.two_steps World.automation
    task false fresh
  = (Ok (u "Done"),
     State (Agent (Some ThePlaywright) (Some TheBrowser) (Some ThePage) 10)
       (observed ++ [Message assistant (Some (u "Final Answer: Done"))])
       [Acquired ThePlaywright; Acquired TheBrowser; Acquired ThePage;
        Completion (seed task) (Content (Some World.navigate_reply));
        Execute (u "navigate")
          (VDict [(u "url", VStr (u "https://example.com"))]);
        Automation (Goto (VStr (u "https://example.com"))) (Returns None);
        Completion observed (Content (Some (u "Final Answer: Done")));
        Released ThePage; Released TheBrowser; Released ThePlaywright]).
Proof. vm_compute. reflexivity. Qed.

(** A model call that fails at the second request: the exception leaves
    [run] after the three releases. *)
Example run_model_failure :
  let model k :=
    match k with
    | O => Content (Some (u "Thought: still thinking"))
    | S _ => Fails (Error (u "quota exceeded"))
    end in
  let out :=
    run World.repr_of World.acquire model World.automation
      (u "open the page") false fresh in
  fst out = Raise (Error (u "quota exceeded"))
  /\ count is_completion (trace (snd out)) = 2
  /\ skipn 5 (trace (snd out)) = closing.
Proof. vm_compute. repeat split. Qed.

(** ** The decoder always answers *)

Ltac break_match H :=
  match type of H with
  | context [match ?x with _ => _ end] => destruct x eqn:?
  end.

Lemma skip_ws_length (s : str) : length (skip_ws s) <= length s.
Proof.
  induction s as [|c s IH]; cbn [skip_ws]; [lia|].
  destruct (is_ws c); cbn [length]; lia.
Qed.

Lemma digits_length (s : str) : length (snd (digits s)) <= length s.
Proof.
  induction s as [|c s IH]; cbn [digits]; [cbn; lia|].
  destruct (is_digit c); [|cbn; lia].
  destruct (digits s) as [d r]. cbn [snd length] in *. lia.
Qed.

Lemma push_some (c : char) (r : option (str * str)) (x rest : str) :
  push c r = Some (x, rest) -> exists x', r = Some (x', rest).
Proof.
  destruct r as [[x' rest']|]; cbn [push]; [|discriminate].
  intros H. injection H as _ <-. now exists x'.
Qed.

Lemma scanstring_shorter_bounded (n : nat) :
  forall s x rest,
    length s <= n ->
    scanstring s = Some (x, rest) -> length rest < length s.
Proof.
  induction n as [|n IH]; intros s x rest Hlen H.
  - destruct s; [discriminate|cbn in Hlen; lia].
  - destruct s as [|c s']; [discriminate|].
    cbn [scanstring] in H.
    repeat (break_match H; try discriminate);
      try (injection H as <- <-; cbn [length]; lia);
      apply push_some in H; destruct H as (x' & H);
      apply IH in H; subst; cbn [length] in *; lia.
Qed.

Lemma scanstring_shorter (s x rest : str) :
  scanstring s = Some (x, rest) -> length rest < length s.
Proof. apply scanstring_shorter_bounded with (n := length s). lia. Qed.

Lemma digits_shorter (s d r : str) :
  digits s = (d, r) -> length r <= length s.
Proof.
  intros H. pose proof (digits_length s) as L. now rewrite H in L.
Qed.

Lemma minus_sign_length (s : str) :
  length (snd (minus_sign s)) <= length s.
Proof.
  destruct s as [|c s']; cbn [minus_sign]; [cbn; lia|].
  destruct (N.eqb c (ch "-")); cbn [snd length]; lia.
Qed.

Lemma int_part_shorter (s ip r : str) :
  int_part s = Some (ip, r) -> length r < length s.
Proof.
  destruct s as [|c s']; cbn [int_part]; [discriminate|].
  destruct (N.leb 49 c && N.leb c 57)%N.
  - destruct (digits s') as [d r'] eqn:E. apply digits_shorter in E.
    intros H. injection H as _ <-. cbn [length]. lia.
  - destruct (N.eqb c (ch "0")); [|discriminate].
    intros H. injection H as _ <-. cbn [length]. lia.
Qed.

Lemma frac_part_length (s : str) : length (snd (frac_part s)) <= length s.
Proof.
  destruct s as [|dot [|d1 r]]; cbn [frac_part snd]; try lia.
  destruct (N.eqb dot (ch ".") && is_digit d1); cbn [snd]; [|lia].
  destruct (digits r) as [d r'] eqn:E. apply digits_shorter in E.
  cbn [snd length]. lia.
Qed.

Lemma exp_part_length (s : str) : length (snd (exp_part s)) <= length s.
Proof.
  destruct s as [|e r]; cbn [exp_part snd]; [lia|].
  destruct (N.eqb e (ch "e") || N.eqb e (ch "E")); cbn [snd]; [|lia].
  destruct r as [|g r'].
  - cbn. lia.
  - destruct (N.eqb g (ch "-") || N.eqb g (ch "+")).
    + destruct (digits r') as [[|d0 d] r2] eqn:E; apply digits_shorter in E;
        cbn [snd length]; lia.
    + destruct (digits (g :: r')) as [[|d0 d] r2] eqn:E;
        apply digits_shorter in E; cbn [snd length] in *; lia.
Qed.

Lemma match_number_shorter (s : str) (v : value) (rest : str) :
  match_number s = Some (v, rest) -> length rest < length s.
Proof.
  unfold match_number.
  pose proof (minus_sign_length s) as L1.
  destruct (minus_sign s) as [neg s1]. cbn [snd] in L1.
  destruct (int_part s1) as [[ip s2]|] eqn:E2; [|discriminate].
  apply int_part_shorter in E2.
  pose proof (frac_part_length s2) as L3.
  destruct (frac_part s2) as [frac s3]. cbn [snd] in L3.
  pose proof (exp_part_length s3) as L4.
  destruct (exp_part s3) as [exp s4]. cbn [snd] in L4.
  destruct frac, exp; intros H; injection H as _ <-; lia.
Qed.

Ltac shorter :=
  repeat match goal with
    | E : scanstring _ = Some _ |- _ => apply scanstring_shorter in E
    | E : match_number _ = Some _ |- _ => apply match_number_shorter in E
    | E : skip_ws ?t = _ |- _ =>
        let L := fresh "L" in
        pose proof (skip_ws_length t) as L; rewrite E in L; clear E
    end;
  repeat match goal with
    | H : context [skip_ws ?t] |- _ =>
        lazymatch goal with
        | _ : length (skip_ws t) <= length t |- _ => fail
        | _ => pose proof (skip_ws_length t)
        end
    | |- context [skip_ws ?t] =>
        lazymatch goal with
        | _ : length (skip_ws t) <= length t |- _ => fail
        | _ => pose proof (skip_ws_length t)
        end
    end;
  cbn [length] in *.

(** With fuel above twice the length of its input, a scan never runs out
    of fuel; and what it leaves is shorter than its input. *)
Lemma scan_fuel (fuel : nat) :
  (forall s, 2 * length s < fuel -> scan_once fuel s <> Exhausted)
  /\ (forall s v rest,
        scan_once fuel s = Parsed v rest -> length rest < length s)
  /\ (forall s acc, 2 * length s < fuel -> parse_object fuel s acc <> Exhausted)
  /\ (forall s acc v rest,
        parse_object fuel s acc = Parsed v rest -> length rest < length s)
  /\ (forall s acc,
        2 * length s + 1 < fuel -> parse_array fuel s acc <> Exhausted)
  /\ (forall s acc v rest,
        parse_array fuel s acc = Parsed v rest -> length rest < length s).
Proof.
  induction fuel as [|fuel (IH1 & IH2 & IH3 & IH4 & IH5 & IH6)].
  { repeat split; intros; try lia; discriminate. }
  split; [|split; [|split; [|split; [|split]]]].
  - (* scan_once never exhausted *)
    intros s Hlen H. cbn [scan_once] in H.
    repeat (break_match H; try discriminate); shorter.
    + eapply IH3; [|exact H]. (cbn [length] in *; lia).
    + eapply IH5; [|exact H]. (cbn [length] in *; lia).
  - (* scan_once consumes *)
    intros s v rest H. cbn [scan_once] in H.
    repeat (break_match H; try discriminate); shorter;
      try (injection H as <- <-);
      try (apply IH4 in H); try (apply IH6 in H);
      cbn [length] in *; try lia.
    all: repeat match goal with
           | |- context [match ?l with [] => [] | _ :: _ => _ end] =>
               destruct l; cbn [length]; try lia
           end.
  - (* parse_object never exhausted *)
    intros s acc Hlen H. cbn [parse_object] in H.
    repeat (break_match H; try discriminate);
      repeat match goal with
        | E : scan_once fuel _ = Parsed _ _ |- _ => apply IH2 in E
        end;
      shorter.
    + eapply IH3; [|exact H]. lia.
    + match goal with
      | E : scan_once fuel ?t = Exhausted |- _ => apply (IH1 t); [lia|exact E]
      end.
  - (* parse_object consumes *)
    intros s acc v rest H. cbn [parse_object] in H.
    repeat (break_match H; try discriminate);
      repeat match goal with
        | E : scan_once fuel _ = Parsed _ _ |- _ => apply IH2 in E
        end;
      shorter.
    + injection H as <- <-. lia.
    + apply IH4 in H. lia.
  - (* parse_array never exhausted *)
    intros s acc Hlen H. cbn [parse_array] in H.
    repeat (break_match H; try discriminate);
      repeat match goal with
        | E : scan_once fuel _ = Parsed _ _ |- _ => apply IH2 in E
        end;
      shorter.
    + eapply IH5; [|exact H]. lia.
    + match goal with
      | E : scan_once fuel ?t = Exhausted |- _ => apply (IH1 t); [lia|exact E]
      end.
  - (* parse_array consumes *)
    intros s acc v rest H. cbn [parse_array] in H.
    repeat (break_match H; try discriminate);
      repeat match goal with
        | E : scan_once fuel _ = Parsed _ _ |- _ => apply IH2 in E
        end;
      shorter.
    + injection H as <- <-. lia.
    + apply IH6 in H. lia.
Qed.

(** [loads] never stops for want of fuel. *)
Lemma scan_once_fuel (s : str) :
  scan_once (2 * length s + 2) s <> Exhausted.
Proof.
  destruct (scan_fuel (2 * length s + 2)) as (H & _). apply H. lia.
Qed.

(** ** The parser *)

(** The outer loop of the parser, one line at a time, with the inner
    loop named. *)
Lemma scan_lines_cons (raw : str) (rest : list str) (d : directive) :
  scan_lines (raw :: rest) d =
  let line := strip raw in
  if startswith THOUGHT line then
    scan_lines rest
      (Directive (strip (replace THOUGHT [] line)) (action d) (params d))
  else if startswith ACTION line then
    scan_lines rest
      (Directive (thought d) (strip (replace ACTION [] line)) (params d))
  else if startswith ACTION_INPUT line then
    let (json_str, ls) :=
      accumulate rest (strip (replace ACTION_INPUT [] line)) in
    match decode_params json_str (params d) with
    | Ok p => scan_lines ls (Directive (thought d) (action d) p)
    | Raise e => Raise e
    end
  else if startswith FINAL_ANSWER line then
    Ok (Directive (strip (replace FINAL_ANSWER [] line)) FINISH (params d))
  else scan_lines rest d.
Proof.
  cbn [scan_lines]. cbv zeta.
  destruct (startswith THOUGHT (strip raw)); [reflexivity|].
  destruct (startswith ACTION (strip raw)); [reflexivity|].
  destruct (startswith ACTION_INPUT (strip raw)); [|reflexivity].
  generalize (strip (replace ACTION_INPUT [] (strip raw))).
  induction rest as [|next ls' IH]; intro json_str; cbn [accumulate].
  - destruct (decode_params json_str (params d)); reflexivity.
  - destruct (ends_block next); [reflexivity|]. apply IH.
Qed.

Lemma startswith_disjoint (p q : char) (ps qs s : str) :
  p <> q ->
  startswith (p :: ps) s = true -> startswith (q :: qs) s = false.
Proof.
  intros Hpq. destruct s as [|c s']; cbn [startswith]; [discriminate|].
  destruct (N.eqb_spec p c) as [->|]; [|discriminate].
  intros _. destruct (N.eqb_spec q c) as [->|]; [congruence|reflexivity].
Qed.

(** A line that begins with [Final Answer:] begins with no other marker,
    and ends an [Action Input:] block. *)
Lemma final_answer_line (raw : str) :
  startswith FINAL_ANSWER (strip raw) = true ->
  startswith THOUGHT (strip raw) = false
  /\ startswith ACTION (strip raw) = false
  /\ startswith ACTION_INPUT (strip raw) = false
  /\ ends_block raw = true.
Proof.
  intros H. unfold ends_block. cbv zeta. rewrite H.
  change FINAL_ANSWER with (70%N :: tl FINAL_ANSWER) in H.
  change THOUGHT with (84%N :: tl THOUGHT).
  change ACTION with (65%N :: tl ACTION).
  change ACTION_INPUT with (65%N :: tl ACTION_INPUT).
  repeat split;
    try (eapply startswith_disjoint; [|exact H]; discriminate).
  now rewrite !orb_true_r.
Qed.

(** The lines left by the inner loop are a tail of its input, and the
    lines it consumed end no block. *)
Lemma accumulate_tail (ls : list str) (json_str : str) :
  exists consumed,
    ls = consumed ++ snd (accumulate ls json_str)
    /\ Forall (fun raw => ends_block raw = false) consumed.
Proof.
  revert json_str.
  induction ls as [|next ls' IH]; intro json_str; cbn [accumulate].
  - exists []. split; [reflexivity|constructor].
  - destruct (ends_block next) eqn:E.
    + exists []. split; [reflexivity|constructor].
    + destruct (IH (json_str ++ nl :: strip next)) as (consumed & Heq & Hall).
      exists (next :: consumed). split.
      * cbn [app]. now rewrite <- Heq.
      * now constructor.
Qed.

Lemma accumulate_length (ls : list str) (json_str : str) :
  length (snd (accumulate ls json_str)) <= length ls.
Proof.
  destruct (accumulate_tail ls json_str) as (consumed & Heq & _).
  rewrite Heq at 2. rewrite length_app. lia.
Qed.



(** ** The executor *)

Section ExecutorFacts.

Variable repr_of : value -> str.
Variable automation : nat -> page_call -> call_result.

Lemma recognized_false (action : str) :
  recognized action = false ->
  Py.eqb action (u "navigate") = false
  /\ Py.eqb action (u "click") = false
  /\ Py.eqb action (u "type") = false
  /\ Py.eqb action (u "get_text") = false
  /\ Py.eqb action (u "screenshot") = false.
Proof.
  unfold recognized. cbn [existsb]. intros H.
  repeat (apply orb_false_iff in H; destruct H as [? H]). auto.
Qed.

Ltac effect_done :=
  first
    [ eexists; eexists; split; [reflexivity|]
    | eexists; exists []; rewrite app_nil_r; split; [reflexivity|] ];
  split; [repeat constructor|];
  split; [cbn; lia|];
  split;
  [ intros c' e' Hin; cbn in Hin; intuition congruence
  | intros Hr;
    first [ split; reflexivity
          | apply recognized_false in Hr; intuition congruence ] ].

(** What one call of [execute_action] does: it returns an outcome, leaves
    the agent and the transcript alone, and adds at most one automation
    call to the trace. *)
Lemma execute_action_effect (action : str) (params : value) (st : state) :
  exists (o : outcome) (evs : list event),
    execute_action repr_of automation action params st
    = (Ok o, State (self st) (messages st) (trace st ++ evs))
    /\ Forall (fun ev => is_automation ev = true) evs
    /\ length evs <= 1
    /\ (forall c e, In (Automation c (Raises e)) evs -> o = Failed (exn_str e))
    /\ (recognized action = false ->
        evs = []
        /\ o = Failed (match page (self st) with
                       | Some _ => u "Unknown action: " ++ action
                       | None => u "Browser not started"
                       end)).
Proof.
  destruct st as [a ms tr]. unfold execute_action.
  cbn [self messages trace].
  destruct (page a) as [p|]; [|effect_done].
  unfold try_except, dispatch.
  destruct (Py.eqb action (u "navigate")) eqn:E1;
  [|destruct (Py.eqb action (u "click")) eqn:E2;
  [|destruct (Py.eqb action (u "type")) eqn:E3;
  [|destruct (Py.eqb action (u "get_text")) eqn:E4;
  [|destruct (Py.eqb action (u "screenshot")) eqn:E5]]]].
  all: unfold bind, call_page, get, ret, raise; cbn [self messages trace].
  all: try (destruct params; try effect_done).
  all: try match goal with
       | |- context [automation ?k ?c] =>
           destruct (automation k c) as [v|e] eqn:Ha; effect_done
       end.
Qed.

(** C5. [execute_action] never raises.  Whatever the action name and the
    parameters, it returns an outcome; an automation call that raises is
    turned into a failed outcome carrying the message of the exception;
    an action name outside the five recognized ones gives a failed outcome
    with an error message and makes no automation call. *)
Theorem execute_action_never_raises
  (action : str) (params : value) (st : state) :
  exists (o : outcome) (evs : list event),
    execute_action repr_of automation action params st
    = (Ok o, State (self st) (messages st) (trace st ++ evs))
    /\ Forall (fun ev => match ev with
                         | Automation _ (Raises e) => o = Failed (exn_str e)
                         | Automation _ (Returns _) => True
                         | _ => False
                         end) evs
    /\ (if recognized action then True
        else evs = []
             /\ success o = false
             /\ o = Failed (match page (self st) with
                            | Some _ => u "Unknown action: " ++ action
                            | None => u "Browser not started"
                            end)).
Proof.
  destruct (execute_action_effect action params st)
    as (o & evs & Heq & Hauto & _ & Hfail & Hunk).
  exists o, evs. split; [exact Heq|]. split.
  - rewrite Forall_forall in *. intros ev Hin.
    specialize (Hauto ev Hin). destruct ev as [| | | |c [v|e]]; try discriminate.
    + exact I.
    + now apply Hfail with c.
  - destruct (recognized action); [exact I|].
    destruct (Hunk eq_refl) as (-> & ->). repeat split.
Qed.

(** C9. Called before the browser is started, [execute_action] returns
    the failed outcome ["Browser not started"] for every action name,
    raising nothing and leaving the state, hence the trace of automation
    calls, as it was. *)
Theorem execute_action_browser_not_started
  (action : str) (params : value) (st : state) :
  page (self st) = None ->
  execute_action repr_of automation action params st
  = (Ok (Failed (u "Browser not started")), st).
Proof.
  intros Hpage. unfold execute_action. now rewrite Hpage.
Qed.

Lemma performs_dispatch (st : state) (c : page_call)
  (ok : option str -> outcome) (p : resource) :
  page (self st) = Some p ->
  try_except
    (bind (call_page automation c) (fun v => ret (ok v)))
    (fun e => ret (Failed (exn_str e))) st
  = performs automation st c ok.
Proof.
  intros _. unfold try_except, bind, call_page, performs, ret.
  now destruct (automation (count is_automation (trace st)) c).
Qed.

(** C10. No parameter is validated.  With the browser started and a dict
    of parameters, each recognized action whose parameter is missing makes
    its automation call all the same, with the empty string in its place,
    and [screenshot] with the path ["screenshot.png"]. *)
Theorem missing_parameter_defaulted
  (d : list (str * value)) (st : state) (p : resource) :
  page (self st) = Some p ->
  (dict_lookup d (u "url") = None ->
   execute_action repr_of automation (u "navigate") (VDict d) st
   = performs automation st (Goto (VStr []))
       (fun _ => Succeeded (Some (u "Navigated to "))))
  /\ (dict_lookup d (u "selector") = None ->
      execute_action repr_of automation (u "click") (VDict d) st
      = performs automation st (Click (VStr []))
          (fun _ => Succeeded (Some (u "Clicked on "))))
  /\ (dict_lookup d (u "selector") = None ->
      execute_action repr_of automation (u "type") (VDict d) st
      = performs automation st
          (Fill (VStr []) (param d (u "text") (VStr [])))
          (fun _ => Succeeded
                      (Some (u "Typed '"
                             ++ fmt repr_of (param d (u "text") (VStr []))
                             ++ u "' into "))))
  /\ (dict_lookup d (u "text") = None ->
      execute_action repr_of automation (u "type") (VDict d) st
      = performs automation st
          (Fill (param d (u "selector") (VStr [])) (VStr []))
          (fun _ => Succeeded
                      (Some (u "Typed '' into "
                             ++ fmt repr_of
                                  (param d (u "selector") (VStr []))))))
  /\ (dict_lookup d (u "selector") = None ->
      execute_action repr_of automation (u "get_text") (VDict d) st
      = performs automation st (TextContent (VStr [])) Succeeded)
  /\ (dict_lookup d (u "path") = None ->
      execute_action repr_of automation (u "screenshot") (VDict d) st
      = performs automation st (Screenshot (VStr (u "screenshot.png")))
          (fun _ => Succeeded
                      (Some (u "Screenshot saved to screenshot.png")))).
Proof.
  intros Hpage. unfold execute_action. rewrite Hpage.
  repeat split; intros Hmiss.
  all: rewrite <- (performs_dispatch st _ _ Hpage).
  all: unfold dispatch, get, param; rewrite ?Hmiss.
  all: unfold try_except, bind, ret, call_page; cbn [Py.eqb]; cbv iota.
  all: try reflexivity.
Qed.

End ExecutorFacts.

(** ** The control loop *)

Section RunFacts.

Variable repr_of : value -> str.
Variable acquire : resource -> bool -> option exn.
Variable model : nat -> reply.
Variable automation : nat -> page_call -> call_result.

Lemma count_app (p : event -> bool) (a b : list event) :
  count p (a ++ b) = count p a + count p b.
Proof. unfold count. now rewrite filter_app, length_app. Qed.

Lemma sent_app (a b : list event) : sent (a ++ b) = sent a ++ sent b.
Proof.
  induction a as [|ev a IH]; [reflexivity|].
  destruct ev; cbn [app sent]; now rewrite IH.
Qed.

(** Automation calls are neither requests to the model, nor calls to the
    executor, nor creations or releases. *)
Lemma automation_only (evs : list event) :
  Forall (fun ev => is_automation ev = true) evs ->
  count is_completion evs = 0
  /\ count is_execute evs = 0
  /\ count is_returned evs = 0
  /\ sent evs = []
  /\ Forall (fun ev => is_lifecycle ev = false) evs.
Proof.
  induction 1 as [|ev evs Hev _ IH]; [repeat split; constructor|].
  destruct IH as (H1 & H2 & H3 & H4 & H5).
  destruct ev; try discriminate. unfold count in *. cbn.
  repeat split; auto.
Qed.

Lemma prefix_refl (a : list message) : prefix a a.
Proof. exists []. now rewrite app_nil_r. Qed.

Lemma prefix_app (a d : list message) : prefix a (a ++ d).
Proof. now exists d. Qed.

Lemma prefix_trans (a b c : list message) :
  prefix a b -> prefix b c -> prefix a c.
Proof. intros [d ->] [d' ->]. exists (d ++ d'). now rewrite app_assoc. Qed.

(** Every iteration is one of the cases of [step]. *)
Lemma iteration_step (st : state) :
  step model st
    (fst (iteration repr_of model automation st))
    (snd (iteration repr_of model automation st)).
Proof.
  destruct (iteration repr_of model automation st) as [res st'] eqn:H.
  cbn [fst snd].
  unfold iteration, bind, chat_completion, append, parse_content, ret, raise,
    emit in H.
  cbn [self messages trace] in H.
  destruct (model (count is_completion (trace st))) as [c|e] eqn:Hm.
  2:{ injection H as <- <-. now apply step_fails. }
  fold (answered st c) in H.
  destruct c as [r|].
  2:{ injection H as <- <-. now apply step_no_content. }
  destruct (parse_llm_response r) as [d|e] eqn:Hp.
  2:{ injection H as <- <-. now apply step_parser_raises. }
  destruct (Py.eqb (action d) FINISH) eqn:Hf.
  { injection H as <- <-. now apply step_finish. }
  destruct (action d) as [|a0 action'] eqn:Ha.
  - injection H as <- <-. unfold answered. cbn [self messages trace].
    rewrite <- app_assoc. cbn [app].
    eapply step_clarify; eauto. now rewrite Ha.
  - match type of H with
    | context [execute_action _ _ ?a ?p ?s] =>
        destruct (execute_action_effect repr_of automation a p s)
          as (o & evs & Heq & Hauto & _);
        rewrite Heq in H
    end.
    cbn [self messages trace answered] in H.
    injection H as <- <-.
    rewrite <- !app_assoc. cbn [app]. rewrite <- Ha.
    eapply step_execute; eauto; rewrite Ha; [exact Hf|discriminate].
Qed.

Lemma loop_S (n : nat) (st : state) :
  loop repr_of model automation (S n) st =
  match iteration repr_of model automation st with
  | (Ok (Some t), st') => (Ok t, st')
  | (Ok None, st') => loop repr_of model automation n st'
  | (Raise e, st') => (Raise e, st')
  end.
Proof.
  cbn [loop]. unfold bind.
  destruct (iteration repr_of model automation st) as [[[t|]|e] st'];
    reflexivity.
Qed.

(** What one iteration does to the agent, the transcript and the trace. *)
Lemma step_shape (st st1 : state) (res : result (option str)) :
  step model st res st1 ->
  self st1 = self st
  /\ exists (delta : list message) (evs : list event),
      messages st1 = messages st ++ delta
      /\ trace st1 = trace st ++ evs
      /\ Forall (fun ev => is_lifecycle ev = false) evs
      /\ sent evs = [messages st]
      /\ length (filter is_assistant delta) = count is_returned evs
      /\ match res with
         | Ok None =>
             exists c x,
               delta = [Message assistant c; Message user (Some x)]
               /\ follow_up x
         | _ => delta = [] \/ exists c, delta = [Message assistant c]
         end.
Proof.
  intros H. destruct H; cbn [self messages trace answered]; (split; [reflexivity|]).
  - exists [], [Completion (messages st) (Fails e)].
    rewrite app_nil_r. repeat split; auto.
  - exists [Message assistant None], [Completion (messages st) (Content None)].
    repeat split; eauto.
  - exists [Message assistant (Some r)],
      [Completion (messages st) (Content (Some r))].
    repeat split; eauto.
  - exists [Message assistant (Some r)],
      [Completion (messages st) (Content (Some r))].
    repeat split; eauto.
  - exists [Message assistant (Some r); Message user (Some CLARIFY)],
      [Completion (messages st) (Content (Some r))].
    repeat split; auto. exists (Some r), CLARIFY. split; [reflexivity|now left].
  - destruct (automation_only H3) as (_ & _ & Hr & Hs & Hl).
    exists [Message assistant (Some r);
            Message user (Some (OBSERVATION ++ Dumps.dumps o))],
      (Completion (messages st) (Content (Some r))
       :: Execute (action d) (params d) :: evs).
    repeat split; auto.
    + cbn [sent]. now rewrite Hs.
    + unfold count in *. cbn. now rewrite Hr.
    + exists (Some r), (OBSERVATION ++ Dumps.dumps o).
      split; [reflexivity|right; now exists o].
Qed.

Lemma rounds_of_last (delta : list message) :
  delta = [] \/ (exists c, delta = [Message assistant c]) -> rounds delta.
Proof. intros [->|[c ->]]; constructor. Qed.

(** The loop leaves the agent alone, appends rounds to the transcript and
    sends the model ever longer transcripts. *)
Lemma loop_shape (n : nat) :
  forall st : state,
    let st' := snd (loop repr_of model automation n st) in
    self st' = self st
    /\ exists (rs : list message) (evs : list event),
        messages st' = messages st ++ rs
        /\ rounds rs
        /\ trace st' = trace st ++ evs
        /\ Forall (fun ev => is_lifecycle ev = false) evs
        /\ StronglySorted prefix (sent evs ++ [messages st'])
        /\ Forall (prefix (messages st)) (sent evs ++ [messages st'])
        /\ length (filter is_assistant rs) = count is_returned evs.
Proof.
  induction n as [|n IH]; intro st; cbv zeta.
  - cbn [loop ret snd]. split; [reflexivity|]. exists [], [].
    rewrite !app_nil_r. cbn [sent app].
    repeat split; try constructor; auto using prefix_refl; constructor.
  - rewrite loop_S. pose proof (iteration_step st) as Hs.
    destruct (iteration repr_of model automation st) as [res st1].
    cbn [fst snd] in Hs.
    destruct (step_shape Hs)
      as (Hself & delta & evs1 & Hm & Ht & Hl & Hsent & Hcnt & Hres).
    assert (Hlast :
      delta = [] \/ (exists c, delta = [Message assistant c]) ->
      self st1 = self st
      /\ exists rs evs,
          messages st1 = messages st ++ rs /\ rounds rs
          /\ trace st1 = trace st ++ evs
          /\ Forall (fun ev => is_lifecycle ev = false) evs
          /\ StronglySorted prefix (sent evs ++ [messages st1])
          /\ Forall (prefix (messages st)) (sent evs ++ [messages st1])
          /\ length (filter is_assistant rs) = count is_returned evs).
    { intros Hd. split; [exact Hself|]. exists delta, evs1.
      rewrite Hsent. cbn [app].
      assert (Hp : prefix (messages st) (messages st1))
        by (rewrite Hm; apply prefix_app).
      repeat split; auto using rounds_of_last.
      - repeat constructor. exact Hp.
      - repeat constructor; auto using prefix_refl. }
    destruct res as [[t|]|e]; cbn [snd]; [now apply Hlast| |now apply Hlast].
    destruct Hres as (c & x & -> & Hx).
    destruct (IH st1) as (Hself' & rs & evs & Hm' & Hr & Ht' & Hl' & Hss & Hpre & Hcnt').
    split; [congruence|].
    exists ([Message assistant c; Message user (Some x)] ++ rs), (evs1 ++ evs).
    assert (Hp : prefix (messages st) (messages st1))
      by (rewrite Hm; apply prefix_app).
    assert (Hall : Forall (prefix (messages st))
                     (sent evs ++ [messages (snd (loop repr_of model automation n st1))])).
    { eapply Forall_impl; [|exact Hpre].
      intros t Ht1. eapply prefix_trans; eauto. }
    repeat split.
    + rewrite Hm', Hm. now rewrite <- app_assoc.
    + cbn [app]. now constructor.
    + rewrite Ht', Ht. now rewrite <- app_assoc.
    + apply Forall_app. now split.
    + rewrite sent_app, Hsent. cbn [app]. now constructor.
    + rewrite sent_app, Hsent. cbn [app]. constructor; auto using prefix_refl.
    + rewrite filter_app, length_app, count_app. now rewrite Hcnt, Hcnt'.
Qed.




(** How far [start_browser] gets on a new agent. *)
Lemma start_browser_cases (m : nat) (headless : bool) :
  start_browser acquire headless (configured m) =
  match acquire ThePlaywright headless with
  | Some e => (Raise e, configured m)
  | None =>
      match acquire TheBrowser headless with
      | Some e =>
          (Raise e, State (Agent (Some ThePlaywright) None None m) []
                      [Acquired ThePlaywright])
      | None =>
          match acquire ThePage headless with
          | Some e =>
              (Raise e,
               State (Agent (Some ThePlaywright) (Some TheBrowser) None m) []
                 [Acquired ThePlaywright; Acquired TheBrowser])
          | None =>
              (Ok tt,
               State (Agent (Some ThePlaywright) (Some TheBrowser)
                        (Some ThePage) m) []
                 [Acquired ThePlaywright; Acquired TheBrowser;
                  Acquired ThePage])
          end
      end
  end.
Proof.
  unfold start_browser, bind, create, configured, assign, emit, raise.
  destruct (acquire ThePlaywright headless); [reflexivity|].
  cbn [self messages trace app].
  destruct (acquire TheBrowser headless); [reflexivity|].
  cbn [self messages trace app].
  destruct (acquire ThePage headless); reflexivity.
Qed.

(** [run] on a new agent: when an object cannot be created, the
    exception leaves [run] after the release of the objects created before
    it; otherwise the loop runs from [entered], then come the three
    releases. *)
Lemma run_cases (m : nat) (task : str) (headless : bool) :
  run repr_of acquire model automation task headless (configured m) =
  match acquire ThePlaywright headless with
  | Some e => (Raise e, configured m)
  | None =>
      match acquire TheBrowser headless with
      | Some e =>
          (Raise e, State (Agent (Some ThePlaywright) None None m) []
                      [Acquired ThePlaywright; Released ThePlaywright])
      | None =>
          match acquire ThePage headless with
          | Some e =>
              (Raise e,
               State (Agent (Some ThePlaywright) (Some TheBrowser) None m) []
                 [Acquired ThePlaywright; Acquired TheBrowser;
                  Released TheBrowser; Released ThePlaywright])
          | None =>
              (fst (loop repr_of model automation m (entered m task)),
               State (self (entered m task))
                 (messages
                    (snd (loop repr_of model automation m (entered m task))))
                 (trace
                    (snd (loop repr_of model automation m (entered m task)))
                  ++ closing))
          end
      end
  end.
Proof.
  unfold run, try_finally, bind at 1. rewrite start_browser_cases.
  destruct (acquire ThePlaywright headless); [reflexivity|].
  destruct (acquire TheBrowser headless); [reflexivity|].
  destruct (acquire ThePage headless); [reflexivity|].
  unfold bind, set_messages, get_self.
  cbn [self messages trace max_iterations].
  fold (entered m task).
  destruct (loop_shape m (entered m task)) as (Hself & _).
  destruct (loop repr_of model automation m (entered m task)) as [res st2].
  cbn [fst snd] in *.
  unfold stop_browser, bind, release, emit. rewrite Hself.
  cbn [entered self page browser playwright messages trace].
  now rewrite <- !app_assoc.
Qed.










End RunFacts.

(** ** Runs in concrete worlds *)

Lemma execute_action_browser_not_started_witness :
  execute_action World.repr_of World.automation (u "navigate") (VDict []) fresh
  = (Ok (Failed (u "Browser not started")), fresh).
Proof.
  apply (@execute_action_browser_not_started World.repr_of World.automation
           (u "navigate") (VDict []) fresh).
  reflexivity.
Defined.

Lemma missing_parameter_defaulted_witness :
  execute_action World.repr_of World.automation (u "screenshot") (VDict [])
    started
  = (Ok (Succeeded (Some (u "Screenshot saved to screenshot.png"))),
     State (self started) []
       [Automation (Screenshot (VStr (u "screenshot.png"))) (Returns None)]).
Proof.
  destruct (@missing_parameter_defaulted World.repr_of World.automation
              [] started ThePage eq_refl)
    as (_ & _ & _ & _ & _ & H).
  exact (H eq_refl).
Defined.




(** C1. The parser raises.  The parameters are written with single
    quotes: [json.loads] rejects the fragment, both braces are there, and
    the second [json.loads], on the same text, has no handler. *)
Theorem parser_raises_on_unparsable_braces :
  parse_llm_response
    (text [u "Thought: open the page";
           u "Action: navigate";
           u "Action Input: {'url': 'https://example.com'}"])
  = Raise JSONDecodeError.
Proof. vm_compute. reflexivity. Qed.

(** C6. The reasoning of a final answer is not the rest of its line when
    the marker occurs again in it: [replace] removes every occurrence. *)
Theorem final_answer_drops_inner_marker :
  let line := u "Final Answer: the page says Final Answer: 42" in
  parse_llm_response line
  = Ok (Directive (u "the page says  42") FINISH (VDict []))
  /\ strip (skipn (length FINAL_ANSWER) line)
     = u "the page says Final Answer: 42".
Proof. split; vm_compute; reflexivity. Qed.

(** C7. The reasoning of a [Thought:] line is not the rest of the line
    when the marker occurs again in it. *)
Theorem thought_drops_inner_marker :
  let line := u "Thought: the reply must start with Thought: and a reason" in
  parse_llm_response line
  = Ok (Directive (u "the reply must start with  and a reason") [] (VDict []))
  /\ strip (skipn (length THOUGHT) line)
     = u "the reply must start with Thought: and a reason".
Proof. split; vm_compute; reflexivity. Qed.

(** * Beyond the specification

    ** The parser *)




(** X2. A response none of whose lines begins with a marker gives the
    empty directive: no reasoning, no action, no parameters, and no
    exception. *)
Theorem unmarked_response_gives_empty_directive (response : str) :
  existsb marked (lines_of response) = false ->
  parse_llm_response response = Ok (Directive [] [] (VDict [])).
Proof.
  unfold parse_llm_response, lines_of.
  generalize (Directive [] [] (VDict [])) as d.
  induction (split nl (strip response)) as [|raw rest IH]; intros d H;
    [reflexivity|].
  cbn [existsb] in H. apply orb_false_iff in H. destruct H as [Hm Hr].
  unfold marked in Hm. cbv zeta in Hm.
  repeat (apply orb_false_iff in Hm; destruct Hm as [Hm ?]).
  rewrite scan_lines_cons. cbv zeta.
  repeat match goal with
         | E : startswith _ _ = false |- _ => rewrite E; clear E
         end.
  now apply IH.
Qed.

Lemma unmarked_response_gives_empty_directive_witness :
  parse_llm_response (text [u "I am not sure what to do."; u "Let me think."])
  = Ok (Directive [] [] (VDict [])).
Proof.
  apply unmarked_response_gives_empty_directive. vm_compute. reflexivity.
Defined.

(** *** Where the characters of the JSON fragment come from *)












Lemma accumulate_before_final (fa : str) (post : list str) :
  ends_block fa = true ->
  forall (pre : list str) (json_str : str),
  exists pre',
    accumulate (pre ++ fa :: post) json_str
    = (fst (accumulate (pre ++ [fa]) json_str), pre' ++ fa :: post)
    /\ snd (accumulate (pre ++ [fa]) json_str) = pre' ++ [fa]
    /\ length pre' <= length pre.
Proof.
  intros Hfa. induction pre as [|x pre IH]; intros json_str;
    cbn [app accumulate].
  - rewrite Hfa. exists []. repeat split. cbn. lia.
  - destruct (ends_block x).
    + exists (x :: pre). repeat split. lia.
    + destruct (IH (json_str ++ nl :: strip x)) as (pre' & H1 & H2 & H3).
      exists pre'. repeat split; auto. cbn [length]. lia.
Qed.

(** X4. What follows the terminal line is never read: whatever the lines
    [post] after a line that begins with [Final Answer:], the loop of the
    parser gives the same result, directive or exception, as without
    them. *)
Theorem lines_after_final_answer_ignored
  (pre post : list str) (fa : str) (d : directive) :
  startswith FINAL_ANSWER (strip fa) = true ->
  scan_lines (pre ++ fa :: post) d = scan_lines (pre ++ [fa]) d.
Proof.
  intros Hfa. destruct (final_answer_line fa Hfa) as (H1 & H2 & H3 & Hend).
  assert (Hbase : forall d0,
            scan_lines (fa :: post) d0 = scan_lines [fa] d0).
  { intros d0. rewrite !scan_lines_cons. cbv zeta.
    now rewrite H1, H2, H3, Hfa. }
  remember (length pre) as n eqn:Hn.
  assert (Hlen : length pre <= n) by lia. clear Hn.
  revert pre d Hlen.
  induction n as [|n IH]; intros pre d Hlen.
  - destruct pre; [apply Hbase|cbn in Hlen; lia].
  - destruct pre as [|raw pre]; [apply Hbase|].
    cbn [length app] in *. rewrite !scan_lines_cons. cbv zeta.
    destruct (startswith THOUGHT (strip raw)); [apply IH; lia|].
    destruct (startswith ACTION (strip raw)); [apply IH; lia|].
    destruct (startswith ACTION_INPUT (strip raw)).
    + destruct (@accumulate_before_final fa post Hend pre
                  (strip (replace ACTION_INPUT [] (strip raw))))
        as (pre' & E1 & E2 & E3).
      rewrite E1.
      destruct (accumulate (pre ++ [fa]) _) as [json_str ls].
      cbn [fst snd] in *. subst ls.
      destruct (decode_params json_str (params d)); [|reflexivity].
      apply IH. lia.
    + destruct (startswith FINAL_ANSWER (strip raw)); [reflexivity|].
      apply IH. lia.
Qed.

Lemma lines_after_final_answer_ignored_witness :
  scan_lines
    ([u "Thought: almost there"] ++ u "Final Answer: done"
       :: [u "Action: click"; u "Action Input: {bad}"])
    (Directive [] [] (VDict []))
  = scan_lines ([u "Thought: almost there"] ++ [u "Final Answer: done"])
      (Directive [] [] (VDict [])).
Proof.
  apply lines_after_final_answer_ignored. vm_compute. reflexivity.
Defined.





(** *** Stripping *)

Lemma lstrip_fixed (s : str) :
  match s with [] => True | c :: _ => is_space c = false end ->
  lstrip s = s.
Proof. destruct s as [|c s]; [reflexivity|]. cbn [lstrip]. now intros ->. Qed.

Lemma lstrip_head (s : str) :
  match lstrip s with [] => True | c :: _ => is_space c = false end.
Proof.
  induction s as [|c s IH]; [exact I|]. cbn [lstrip].
  destruct (is_space c) eqn:E; [exact IH|exact E].
Qed.

Lemma lstrip_idempotent (s : str) : lstrip (lstrip s) = lstrip s.
Proof. apply lstrip_fixed, lstrip_head. Qed.

Lemma lstrip_keeps_last (x : str) (c : char) :
  is_space c = false -> exists q, lstrip (x ++ [c]) = q ++ [c].
Proof.
  intros Hc. induction x as [|y x IH]; cbn [app lstrip].
  - rewrite Hc. now exists [].
  - destruct (is_space y); [exact IH|]. now exists (y :: x).
Qed.

Lemma strip_head (s : str) :
  match strip s with [] => True | c :: _ => is_space c = false end.
Proof.
  unfold strip, rstrip. pose proof (lstrip_head s) as H.
  destruct (lstrip s) as [|c t]; [exact I|].
  cbn [rev]. destruct (@lstrip_keeps_last (rev t) c H) as (q & ->).
  rewrite rev_app_distr. exact H.
Qed.

Lemma strip_idempotent (s : str) : strip (strip s) = strip s.
Proof.
  unfold strip at 1. rewrite (lstrip_fixed _ (strip_head s)).
  unfold strip, rstrip. now rewrite rev_involutive, lstrip_idempotent.
Qed.

Lemma ends_block_strip (raw : str) : ends_block (strip raw) = ends_block raw.
Proof. unfold ends_block. cbv zeta. now rewrite strip_idempotent. Qed.

Lemma accumulate_strip (ls : list str) (json_str : str) :
  accumulate (map strip ls) json_str
  = (fst (accumulate ls json_str), map strip (snd (accumulate ls json_str))).
Proof.
  revert json_str. induction ls as [|next ls IH]; intros json_str;
    cbn [map accumulate]; [reflexivity|].
  rewrite ends_block_strip, strip_idempotent.
  destruct (ends_block next); [reflexivity|]. apply IH.
Qed.

(** X6. White space around a line never matters: the loop of the parser
    gives the same result on the lines as on the lines stripped, so an
    indented marker is a marker. *)
Theorem indentation_ignored (lines : list str) (d : directive) :
  scan_lines (map strip lines) d = scan_lines lines d.
Proof.
  remember (length lines) as n eqn:Hn.
  assert (Hlen : length lines <= n) by lia. clear Hn.
  revert lines d Hlen.
  induction n as [|n IH]; intros lines d Hlen.
  - destruct lines; [reflexivity|cbn in Hlen; lia].
  - destruct lines as [|raw rest]; [reflexivity|].
    cbn [length map] in *. rewrite !scan_lines_cons. cbv zeta.
    rewrite strip_idempotent.
    destruct (startswith THOUGHT (strip raw)); [apply IH; lia|].
    destruct (startswith ACTION (strip raw)); [apply IH; lia|].
    destruct (startswith ACTION_INPUT (strip raw)).
    + rewrite accumulate_strip.
      pose proof (accumulate_length rest
                    (strip (replace ACTION_INPUT [] (strip raw)))) as Hl.
      destruct (accumulate rest _) as [json_str ls]. cbn [fst snd] in *.
      destruct (decode_params json_str (params d)); [|reflexivity].
      apply IH. lia.
    + destruct (startswith FINAL_ANSWER (strip raw)); [reflexivity|].
      apply IH. lia.
Qed.

Lemma scan_lines_trimmed_bounded (n : nat) :
  forall (lines : list str) (d d' : directive),
    length lines <= n ->
    strip (thought d) = thought d ->
    strip (action d) = action d ->
    scan_lines lines d = Ok d' ->
    strip (thought d') = thought d' /\ strip (action d') = action d'.
Proof.
  induction n as [|n IH]; intros lines d d' Hlen Ht Ha H.
  - destruct lines; [|cbn in Hlen; lia]. injection H as <-. now split.
  - destruct lines as [|raw rest]; [injection H as <-; now split|].
    cbn [length] in Hlen. rewrite scan_lines_cons in H. cbv zeta in H.
    destruct (startswith THOUGHT (strip raw)).
    { eapply IH; [| | |exact H]; cbn [thought action];
        [lia|apply strip_idempotent|exact Ha]. }
    destruct (startswith ACTION (strip raw)).
    { eapply IH; [| | |exact H]; cbn [thought action];
        [lia|exact Ht|apply strip_idempotent]. }
    destruct (startswith ACTION_INPUT (strip raw)).
    + pose proof (accumulate_length rest
                    (strip (replace ACTION_INPUT [] (strip raw)))) as Hl.
      destruct (accumulate rest _) as [json_str ls]. cbn [snd] in Hl.
      destruct (decode_params json_str (params d)); [|discriminate].
      eapply IH; [| | |exact H]; cbn [thought action]; [lia|exact Ht|exact Ha].
    + destruct (startswith FINAL_ANSWER (strip raw)).
      * injection H as <-. cbn [thought action].
        split; [apply strip_idempotent|vm_compute; reflexivity].
      * eapply IH; [| | |exact H]; [lia|exact Ht|exact Ha].
Qed.

(** X7. The reasoning and the action of a directive are trimmed: in
    whatever the parser returns, stripping either of them again changes
    nothing, so an [Action:] line with blanks only gives the empty
    action. *)
Theorem directive_fields_trimmed (response : str) :
  match parse_llm_response response with
  | Ok d => strip (thought d) = thought d /\ strip (action d) = action d
  | Raise _ => True
  end.
Proof.
  destruct (parse_llm_response response) as [d|e] eqn:H; [|exact I].
  unfold parse_llm_response in H.
  eapply scan_lines_trimmed_bounded; [apply le_n| | |exact H]; reflexivity.
Qed.

(** ** The executor *)

Lemma skipn_length_app (A : Type) (a b : list A) :
  skipn (length a) (a ++ b) = b.
Proof. induction a as [|x a IH]; [reflexivity|exact IH]. Qed.

Section ExecutorMore.

Variable repr_of : value -> str.
Variable automation : nat -> page_call -> call_result.

Ltac success_done :=
  cbn [fst snd trace added success];
  first [ rewrite skipn_length_app; reflexivity
        | rewrite skipn_all; reflexivity ].

(** X8. The success flag tells whether the page did the work: the
    outcome of [execute_action] has [success] true exactly when the call
    added an automation call that returned.  In particular the flag is
    false when nothing was asked of the page. *)
Theorem success_iff_call_returned
  (action : str) (params : value) (st : state) :
  let out := execute_action repr_of automation action params st in
  match fst out with
  | Ok o => success o = existsb is_returned_call (added st (snd out))
  | Raise _ => False
  end.
Proof.
  cbv zeta. destruct st as [a ms tr]. unfold execute_action, added.
  cbn [self messages trace].
  destruct (page a) as [p|]; [|success_done].
  unfold try_except, dispatch.
  destruct (Py.eqb action (u "navigate"));
  [|destruct (Py.eqb action (u "click"));
  [|destruct (Py.eqb action (u "type"));
  [|destruct (Py.eqb action (u "get_text"));
  [|destruct (Py.eqb action (u "screenshot"))]]]].
  all: unfold bind, call_page, get, ret, raise; cbn [self messages trace].
  all: try (destruct params; try success_done).
  all: try match goal with
       | |- context [automation ?k ?c] =>
           destruct (automation k c) as [v|e]; success_done
       end.
Qed.

(** X9. Parameters that are not a dict are a failure of their own: for a
    recognized action on a started browser, [execute_action] returns the
    failed outcome that quotes the missing [get] method, and the page is
    not called. *)
Theorem non_dict_parameters_rejected
  (action : str) (params : value) (st : state) (p : resource) :
  recognized action = true ->
  page (self st) = Some p ->
  match params with VDict _ => False | _ => True end ->
  execute_action repr_of automation action params st
  = (Ok (Failed (u "'" ++ type_name params
                 ++ u "' object has no attribute 'get'")), st).
Proof.
  intros Hr Hp Hnd. unfold execute_action. rewrite Hp.
  unfold try_except, dispatch, recognized in *. cbn [existsb] in Hr.
  destruct (Py.eqb action (u "navigate"));
  [|destruct (Py.eqb action (u "click"));
  [|destruct (Py.eqb action (u "type"));
  [|destruct (Py.eqb action (u "get_text"));
  [|destruct (Py.eqb action (u "screenshot")); [|discriminate Hr]]]]].
  all: destruct params; try contradiction; reflexivity.
Qed.


End ExecutorMore.

Lemma non_dict_parameters_rejected_witness :
  execute_action World.repr_of World.automation (u "click")
    (VStr (u "button")) started
  = (Ok (Failed (u "'str' object has no attribute 'get'")), started).
Proof.
  apply (@non_dict_parameters_rejected World.repr_of World.automation
           (u "click") (VStr (u "button")) started ThePage);
    [reflexivity|reflexivity|exact I].
Defined.


(** ** [get_page_info] *)

(** X11. The content reported is the beginning of the page: when
    [get_page_info] returns the three fields, the content is at most 1000
    characters long and the content of the page starts with it; a page of
    at most 1000 characters is reported whole. *)
Theorem page_content_truncated
  (inspect : info_call -> read_result) (agent : BrowserAgent) :
  match fst (get_page_info inspect agent) with
  | PageInfo _ _ c =>
      length c <= 1000
      /\ exists full rest,
          inspect ReadContent = Read full
          /\ full = c ++ rest
          /\ (length full <= 1000 -> rest = [])
  | InfoError _ => True
  end.
Proof.
  unfold get_page_info. destruct (page agent); [|exact I].
  destruct (inspect ReadUrl); [|exact I].
  destruct (inspect ReadTitle); [|exact I].
  destruct (inspect ReadContent) as [full|]; [|exact I].
  cbn [fst]. unfold slice. cbn [skipn]. rewrite Nat.sub_0_r. split.
  - apply firstn_le_length.
  - exists full, (skipn 1000 full). split; [reflexivity|]. split.
    + symmetry. apply firstn_skipn.
    + intros H. now apply skipn_all2.
Qed.

(** X12. [get_page_info] stops reading at the first failure: it reads
    nothing when the browser is not started, and otherwise the address,
    the title and the content in this order, up to the first read that
    raises.  The fields it reports are what the reads returned; an error
    it reports is the message of the read that raised, the last one
    made, or that the browser is not started. *)
Theorem page_info_reads
  (inspect : info_call -> read_result) (agent : BrowserAgent) :
  let calls := snd (get_page_info inspect agent) in
  calls
  = match page agent with
    | Some _ => until_failure inspect [ReadUrl; ReadTitle; ReadContent]
    | None => []
    end
  /\ match fst (get_page_info inspect agent) with
     | PageInfo url title _ =>
         inspect ReadUrl = Read url /\ inspect ReadTitle = Read title
         /\ calls = [ReadUrl; ReadTitle; ReadContent]
     | InfoError m =>
         match calls with
         | [] => page agent = None /\ m = u "Browser not started"
         | c :: more =>
             exists e, inspect (last more c) = ReadFails e /\ m = exn_str e
         end
     end.
Proof.
  cbv zeta. unfold get_page_info.
  destruct (page agent); [|cbn [fst snd]; repeat split].
  cbn [until_failure].
  destruct (inspect ReadUrl) eqn:E1;
    [|split; [reflexivity|eexists; split; [exact E1|reflexivity]]].
  destruct (inspect ReadTitle) eqn:E2;
    [|split; [reflexivity|eexists; split; [exact E2|reflexivity]]].
  destruct (inspect ReadContent) eqn:E3;
    [|split; [reflexivity|eexists; split; [exact E3|reflexivity]]].
  split; [reflexivity|]. repeat split.
Qed.

(** ** The control loop *)

Lemma eqb_true (a b : str) : Py.eqb a b = true -> a = b.
Proof.
  revert b. induction a as [|x a IH]; destruct b as [|y b]; cbn [Py.eqb];
    try discriminate; [reflexivity|].
  intros H. apply andb_true_iff in H. destruct H as [Hx Hab].
  apply N.eqb_eq in Hx. subst. f_equal. now apply IH.
Qed.


Section RunMore.

Variable repr_of : value -> str.
Variable acquire : resource -> bool -> option exn.
Variable model : nat -> reply.
Variable automation : nat -> page_call -> call_result.

(** What one iteration adds: one request, at most one call to the
    executor with at most one automation call under it, at most two
    messages. *)
Lemma iteration_effect (st : state) :
  let st1 := snd (iteration repr_of model automation st) in
  length (messages st1) <= length (messages st) + 2
  /\ exists evs,
      trace st1 = trace st ++ evs
      /\ count is_completion evs = 1
      /\ count is_execute evs <= 1
      /\ count is_automation evs <= count is_execute evs.
Proof.
  cbv zeta.
  destruct (iteration repr_of model automation st) as [res st'] eqn:H.
  cbn [snd].
  unfold iteration, bind, chat_completion, append, parse_content, ret, raise,
    emit in H.
  cbn [self messages trace] in H.
  destruct (model (count is_completion (trace st))) as [c|e].
  2:{ injection H as _ <-. cbn [messages trace]. split; [lia|].
      eexists. split; [reflexivity|]. cbn. lia. }
  assert (Hshort :
    length (messages st ++ [Message assistant c]) <= length (messages st) + 2)
    by (rewrite length_app; cbn; lia).
  assert (Hone : exists evs,
    trace st ++ [Completion (messages st) (Content c)] = trace st ++ evs
    /\ count is_completion evs = 1 /\ count is_execute evs <= 1
    /\ count is_automation evs <= count is_execute evs)
    by (eexists; split; [reflexivity|cbn; lia]).
  destruct c as [r|]; [|injection H as _ <-; now split].
  destruct (parse_llm_response r) as [d|e]; [|injection H as _ <-; now split].
  destruct (Py.eqb (action d) FINISH); [injection H as _ <-; now split|].
  destruct (action d) as [|a0 action'].
  - injection H as _ <-. cbn [messages trace]. split.
    + rewrite !length_app. cbn. lia.
    + exact Hone.
  - match type of H with
    | context [execute_action _ _ ?a ?p ?s] =>
        destruct (execute_action_effect repr_of automation a p s)
          as (o & evs & Heq & Hauto & Hlen & _);
        rewrite Heq in H
    end.
    cbn [self messages trace] in H. injection H as _ <-.
    cbn [messages trace]. split.
    + rewrite !length_app. cbn. lia.
    + destruct (automation_only Hauto) as (Hc & He & _).
      eexists. split; [rewrite <- !app_assoc; reflexivity|].
      assert (Ha : count is_automation evs <= 1)
        by (unfold count; etransitivity; [apply filter_length_le|exact Hlen]).
      rewrite !count_app. unfold count in *. cbn. rewrite ?Hc, ?He. lia.
Qed.

Lemma loop_effect (n : nat) :
  forall st : state,
    let st' := snd (loop repr_of model automation n st) in
    length (messages st') <= length (messages st) + 2 * n
    /\ exists evs,
        trace st' = trace st ++ evs
        /\ count is_completion evs <= n
        /\ count is_execute evs <= count is_completion evs
        /\ count is_automation evs <= count is_execute evs.
Proof.
  induction n as [|n IH]; intro st; cbv zeta.
  - cbn [loop ret snd]. split; [lia|]. exists []. rewrite app_nil_r.
    cbn. repeat split; lia.
  - rewrite loop_S.
    destruct (iteration_effect st) as (Hm & evs & Ht & Hc & He & Ha).
    destruct (iteration repr_of model automation st) as [res st1].
    cbn [snd] in *.
    assert (Hstop :
      length (messages st1) <= length (messages st) + 2 * S n
      /\ exists evs0,
          trace st1 = trace st ++ evs0
          /\ count is_completion evs0 <= S n
          /\ count is_execute evs0 <= count is_completion evs0
          /\ count is_automation evs0 <= count is_execute evs0).
    { split; [lia|]. exists evs. repeat split; auto; lia. }
    destruct res as [[t|]|e]; cbn [snd]; try exact Hstop.
    destruct (IH st1) as (Hm' & evs' & Ht' & Hc' & He' & Ha').
    split; [lia|]. exists (evs ++ evs').
    rewrite Ht', Ht, <- app_assoc, !count_app. repeat split; lia.
Qed.

(** X13. The budget of a run.  Whatever the model and the page do, [run]
    makes at most [max_iterations] requests to the model, at most one
    call to the executor for each request and at most one automation call
    for each call to the executor, and the transcript it builds has at
    most [2 + 2 * max_iterations] messages. *)
Theorem run_budget (m : nat) (task : str) (headless : bool) :
  let st' :=
    snd (run repr_of acquire model automation task headless (configured m)) in
  count is_completion (trace st') <= m
  /\ count is_execute (trace st') <= count is_completion (trace st')
  /\ count is_automation (trace st') <= count is_execute (trace st')
  /\ length (messages st') <= 2 + 2 * m.
Proof.
  cbv zeta. rewrite run_cases.
  destruct (acquire ThePlaywright headless) as [e|];
    [|destruct (acquire TheBrowser headless) as [e|];
      [|destruct (acquire ThePage headless) as [e|]]];
    cbn [snd trace messages].
  1-3: cbn; repeat split; lia.
  destruct (loop_effect m (entered m task)) as (Hm & evs & Ht & Hc & He & Ha).
  rewrite Ht. cbn [entered trace messages] in *.
  rewrite !count_app. unfold count at 1 3 4 6 7 9. cbn [filter length
    is_completion is_execute is_automation closing].
  repeat split; cbn in *; lia.
Qed.







End RunMore.




Section RunInvariants.

Variable repr_of : value -> str.
Variable acquire : resource -> bool -> option exn.
Variable model : nat -> reply.
Variable automation : nat -> page_call -> call_result.

(** A relation between the state before and after, kept by every
    iteration and closed under composition, holds across the loop. *)
Lemma loop_invariant (P : state -> state -> Prop) :
  (forall st, P st st) ->
  (forall a b c, P a b -> P b c -> P a c) ->
  (forall st res st1, step model st res st1 -> P st st1) ->
  forall (n : nat) (st : state),
    P st (snd (loop repr_of model automation n st)).
Proof.
  intros Hrefl Htrans Hstep. induction n as [|n IH]; intro st.
  - apply Hrefl.
  - rewrite loop_S.
    pose proof (iteration_step repr_of model automation st) as Hs.
    destruct (iteration repr_of model automation st) as [res st1].
    cbn [fst snd] in Hs. apply Hstep in Hs.
    destruct res as [[t|]|e]; cbn [snd]; try exact Hs.
    eapply Htrans; [exact Hs|apply IH].
Qed.

Lemma rounds_alternate (rs : list message) :
  rounds rs -> alternates assistant rs = true.
Proof. induction 1; cbn; auto. Qed.

(** X18. The roles alternate.  In the transcript that a run leaves, the
    first message is the system message and the others go user,
    assistant, user, assistant, and so on: no two messages in a row have
    the same role. *)
Theorem transcript_roles_alternate (m : nat) (task : str) (headless : bool) :
  let st' :=
    snd (run repr_of acquire model automation task headless (configured m)) in
  match messages st' with
  | [] => True
  | first :: others =>
      role first = system /\ alternates user others = true
  end.
Proof.
  cbv zeta. rewrite run_cases.
  destruct (acquire ThePlaywright headless) as [e|];
    [|destruct (acquire TheBrowser headless) as [e|];
      [|destruct (acquire ThePage headless) as [e|]]];
    cbn [snd messages]; try exact I.
  destruct (loop_shape repr_of model automation m (entered m task))
    as (_ & rs & _ & Hm & Hr & _).
  rewrite Hm. cbn [entered messages app]. split; [reflexivity|].
  cbn [alternates role role_eqb other_speaker andb].
  now apply rounds_alternate.
Qed.



Lemma automation_only_proper (evs : list event) :
  Forall (fun ev => is_automation ev = true) evs ->
  forallb proper_execute evs = true.
Proof.
  induction 1 as [|ev evs Hev _ IH]; [reflexivity|].
  destruct ev; try discriminate. exact IH.
Qed.

Lemma step_proper (st st1 : state) (res : result (option str)) :
  step model st res st1 ->
  forallb proper_execute (trace st) = true ->
  forallb proper_execute (trace st1) = true.
Proof.
  intros H Hp. destruct H; cbn [trace answered]; rewrite forallb_app, Hp;
    try reflexivity.
  cbn [forallb proper_execute andb].
  match goal with Ha : Forall _ evs |- _ =>
    rewrite (automation_only_proper Ha) end.
  match goal with Hf : Py.eqb (action d) FINISH = false |- _ => rewrite Hf end.
  destruct (action d); [contradiction|reflexivity].
Qed.

(** X20. The executor is never given the sentinel or an empty name:
    every call that a run makes to [execute_action] has an action name
    that is neither empty nor [FINISH]. *)
Theorem executor_gets_proper_names (m : nat) (task : str) (headless : bool) :
  let st' :=
    snd (run repr_of acquire model automation task headless (configured m)) in
  forallb proper_execute (trace st') = true.
Proof.
  cbv zeta. rewrite run_cases.
  destruct (acquire ThePlaywright headless) as [e|];
    [|destruct (acquire TheBrowser headless) as [e|];
      [|destruct (acquire ThePage headless) as [e|]]];
    cbn [snd trace]; try reflexivity.
  rewrite forallb_app.
  pose proof (@loop_invariant
    (fun a b => forallb proper_execute (trace a) = true ->
                forallb proper_execute (trace b) = true)) as Hinv.
  assert (Hrefl : forall st : state,
            forallb proper_execute (trace st) = true ->
            forallb proper_execute (trace st) = true) by auto.
  assert (Htrans : forall a b c : state,
            (forallb proper_execute (trace a) = true ->
             forallb proper_execute (trace b) = true) ->
            (forallb proper_execute (trace b) = true ->
             forallb proper_execute (trace c) = true) ->
            forallb proper_execute (trace a) = true ->
            forallb proper_execute (trace c) = true) by auto.
  rewrite (Hinv Hrefl Htrans (fun st res st1 H => step_proper H)
             m (entered m task)); reflexivity.
Qed.

End RunInvariants.

Section RunResults.

Variable repr_of : value -> str.
Variable acquire : resource -> bool -> option exn.
Variable model : nat -> reply.
Variable automation : nat -> page_call -> call_result.

Lemma loop_result (n : nat) :
  forall st : state,
    match fst (loop repr_of model automation n st) with
    | Ok t =>
        t = EXHAUSTED
        \/ exists k r d,
             k < count is_completion (trace st) + n
             /\ model k = Content (Some r)
             /\ parse_llm_response r = Ok d
             /\ action d = FINISH
             /\ t = thought d
    | Raise _ => True
    end.
Proof.
  induction n as [|n IH]; intro st.
  - cbn. now left.
  - rewrite loop_S.
    pose proof (iteration_step repr_of model automation st) as Hs.
    destruct (iteration_effect repr_of model automation st)
      as (_ & evs & Ht & Hc & _).
    destruct (iteration repr_of model automation st) as [res st1].
    cbn [fst snd] in *.
    destruct res as [[t|]|e]; cbn [fst]; [| |exact I].
    + inversion Hs; subst. right.
      match goal with
      | Hm : model _ = Content (Some ?r), Hp : parse_llm_response ?r = Ok ?d,
        Hf : Py.eqb _ FINISH = true |- _ =>
          exists (count is_completion (trace st)), r, d;
          repeat split; [lia|exact Hm|exact Hp|exact (eqb_true _ _ Hf)]
      end.
    + specialize (IH st1). rewrite Ht, count_app, Hc in IH.
      destruct (fst (loop repr_of model automation n st1)); [|exact I].
      destruct IH as [->|(k & r & d & Hk & H)]; [now left|].
      right. exists k, r, d. split; [lia|exact H].
Qed.

(** X21. What a run can return.  When [run] returns, its result is the
    exhaustion message, or the reasoning of a directive with the action
    [FINISH] that the parser made from one of the replies, within the
    budget of requests. *)
Theorem run_result_provenance (m : nat) (task : str) (headless : bool) :
  match fst (run repr_of acquire model automation task headless
               (configured m)) with
  | Ok t =>
      t = EXHAUSTED
      \/ exists k r d,
           k < m
           /\ model k = Content (Some r)
           /\ parse_llm_response r = Ok d
           /\ action d = FINISH
           /\ t = thought d
  | Raise _ => True
  end.
Proof.
  rewrite run_cases.
  destruct (acquire ThePlaywright headless) as [e|];
    [|destruct (acquire TheBrowser headless) as [e|];
      [|destruct (acquire ThePage headless) as [e|]]];
    cbn [fst]; try exact I.
  exact (loop_result m (entered m task)).
Qed.



End RunResults.

